(** * ra-data-json-server (OData flavour): the data provider of
    [packages/ra-data-json-server/src/index.ts]

    The file embeds the identifier normaliser ([idFuncSingle], [idFunc]),
    the filter compiler ([getOdataFilter]) and the nine operation handlers
    of the default export, over a small model of the JavaScript values
    they touch: a store of mutable objects and arrays, property reads and
    strict-mode property writes, and promises settled by the injected
    transport. *)

From Stdlib Require Import ZArith String Ascii List Bool Lia.
From Stdlib Require Import Sorting.Sorted Sorting.Permutation.
From Stdlib Require Import DecimalString DecimalPos.
From stdpp Require Import base gmap list strings sorting.

Open Scope string_scope.
Open Scope list_scope.
Open Scope Z_scope.

(** ** Values and the store *)

(** Objects live in a store and values refer to them by location, so
    that two names for one object see each other's writes. *)
Definition loc := nat.

(** Numbers are the integer-valued IEEE doubles (identifiers, page
    numbers, lengths), with [NaN] and the two infinities beside them.
    [VNum n] stands for the double nearest to the integer [n], as a
    numeric literal does; what the program computes is a double itself.
    Fractions are not modelled, nor is the sign of zero. *)
Inductive value :=
| VUndef
| VNull
| VBool (b : bool)
| VNum (n : Z)
| VStr (s : string)
| VRef (l : loc)
| VNaN
| VInf (negative : bool).

(** The own enumerable string-keyed properties of an object, in the
    order [for ... in], object spread and [Object.keys] visit them. *)
Definition props := list (string * value).

(** An ordinary object, or an array: its elements and the named
    properties it may carry besides them. *)
Inductive object :=
| HObj (ps : props)
| HArr (es : list value) (ps : props).

Abbreviation heap := (gmap loc object).

(** ** Property lists *)

Fixpoint prop_get (k : string) (ps : props) : option value :=
  match ps with
  | [] => None
  | (k', v) :: ps' => if String.eqb k k' then Some v else prop_get k ps'
  end.

(** [o[k] = v] on own data properties: an existing key keeps its place,
    a new key goes last. *)
Fixpoint prop_set (k : string) (v : value) (ps : props) : props :=
  match ps with
  | [] => [(k, v)]
  | (k', v') :: ps' =>
      if String.eqb k k' then (k, v) :: ps' else (k', v') :: prop_set k v ps'
  end.

(** [delete o[k]]. *)
Fixpoint prop_del (k : string) (ps : props) : props :=
  match ps with
  | [] => []
  | (k', v') :: ps' =>
      if String.eqb k k' then prop_del k ps' else (k', v') :: prop_del k ps'
  end.

(** ** Property access on values

    The handlers read the properties [Id], [value] and [length] and write
    and delete [id]; none of them is an array index, so the elements of an
    array are reached only through [length], [map] and [sort]. [None] is a
    thrown [TypeError]. *)

(** [v.k] *)
Definition Get (h : heap) (v : value) (k : string) : option value :=
  match v with
  | VUndef | VNull => None
  | VBool _ | VNum _ | VNaN | VInf _ => Some VUndef
  | VStr s =>
      Some (if String.eqb k "length"
            then VNum (Z.of_nat (String.length s)) else VUndef)
  | VRef l =>
      match h !! l with
      | Some (HObj ps) => Some (default VUndef (prop_get k ps))
      | Some (HArr es ps) =>
          Some (if String.eqb k "length"
                then VNum (Z.of_nat (length es))
                else default VUndef (prop_get k ps))
      | None => None
      end
  end.

(** [v.k = x] in strict mode code. [index.ts] has [import] and [export]
    declarations: it is a module, and module code is always strict mode
    code. There an assignment to a property of a primitive value throws a
    [TypeError] (the wrapper object cannot take the property); on
    [undefined] and [null] it throws in every mode. *)
Definition Put (h : heap) (v : value) (k : string) (x : value) : option heap :=
  match v with
  | VRef l =>
      match h !! l with
      | Some (HObj ps) => Some (<[l := HObj (prop_set k x ps)]> h)
      | Some (HArr es ps) => Some (<[l := HArr es (prop_set k x ps)]> h)
      | None => None
      end
  | _ => None
  end.

(** [delete v.k]: a [TypeError] on [undefined] and [null], nothing to do
    on the other primitives. *)
Definition Delete (h : heap) (v : value) (k : string) : option heap :=
  match v with
  | VUndef | VNull => None
  | VBool _ | VNum _ | VStr _ | VNaN | VInf _ => Some h
  | VRef l =>
      match h !! l with
      | Some (HObj ps) => Some (<[l := HObj (prop_del k ps)]> h)
      | Some (HArr es ps) => Some (<[l := HArr es (prop_del k ps)]> h)
      | None => None
      end
  end.

Definition Array_isArray (h : heap) (v : value) : bool :=
  match v with
  | VRef l => match h !! l with Some (HArr _ _) => true | _ => false end
  | _ => false
  end.

(** ** Strings and numbers *)

(** The double nearest to an integer, ties to even: an integer below
    2^53 in size is a double, a larger one keeps its 53 leading bits. *)
Definition double_round (z : Z) : Z :=
  let a := Z.abs z in
  if a <? 2 ^ 53 then z
  else
    let e := Z.log2 a - 52 in
    let q := a / 2 ^ e in
    let r := a mod 2 ^ e in
    let half := 2 ^ (e - 1) in
    let q' := if r <? half then q
              else if half <? r then q + 1
              else if Z.even q then q else q + 1 in
    Z.sgn z * (q' * 2 ^ e).

(** The numbers of the arithmetic: a double that is an integer, an
    infinity, or [NaN]. *)
Inductive number :=
| Finite (d : Z)
| Infinite (negative : bool)
| NaN.

Definition Number_value (x : number) : value :=
  match x with
  | Finite d => VNum d
  | Infinite negative => VInf negative
  | NaN => VNaN
  end.

(** The number an integer stands for, and the number an exact integer
    result becomes: the nearest double, or an infinity from 2^1024
    on. *)
Definition Number_of_Z (z : Z) : number :=
  let d := double_round z in
  if Z.abs d <? 2 ^ 1024 then Finite d else Infinite (z <? 0).

(** [x - y] on numbers. *)
Definition Number_sub (x y : number) : number :=
  match x, y with
  | Finite a, Finite b => Number_of_Z (a - b)
  | Finite _, Infinite negative => Infinite (negb negative)
  | Infinite negative, Finite _ => Infinite negative
  | Infinite s, Infinite t => if Bool.eqb s t then NaN else Infinite s
  | _, _ => NaN
  end.

(** [x * y] on numbers. *)
Definition Number_mul (x y : number) : number :=
  match x, y with
  | Finite a, Finite b => Number_of_Z (a * b)
  | Finite a, Infinite negative | Infinite negative, Finite a =>
      if a =? 0 then NaN else Infinite (xorb negative (a <? 0))
  | Infinite s, Infinite t => Infinite (xorb s t)
  | _, _ => NaN
  end.

(** The decimal digits of a natural number. *)
Definition digits_of (x : Z) : string :=
  match x with
  | Zpos p => NilEmpty.string_of_uint (Pos.to_uint p)
  | _ => "0"
  end.

(** [Number::toString] looks for the decimal with the fewest significant
    digits that still denotes the double [x], the nearest to [x] among
    those: here the multiples of [10 ^ zeros] on either side of [x],
    from the most zeros down to none. *)
Fixpoint shortest_from (x : Z) (zeros : nat) : Z :=
  match zeros with
  | O => x
  | S zeros' =>
      let p := 10 ^ Z.of_nat zeros in
      let lo := x / p * p in
      let hi := lo + p in
      let ok_lo := double_round lo =? x in
      let ok_hi := double_round hi =? x in
      if ok_lo && ok_hi
      then if x - lo <? hi - x then lo
           else if hi - x <? x - lo then hi
           else if Z.even (x / p) then lo else hi
      else if ok_lo then lo
      else if ok_hi then hi
      else shortest_from x zeros'
  end.

Definition shortest_decimal (x : Z) : Z :=
  shortest_from x (String.length (digits_of x) - 1).

Fixpoint drop_zeros (l : list ascii) : list ascii :=
  match l with
  | c :: l' => if Ascii.eqb c "0" then drop_zeros l' else l
  | [] => []
  end.

(** The form with an exponent, [d.ddde+n]: the significant digits of
    [m], a point after the first, and one less than the number of its
    digits. *)
Definition exponent_form (m : Z) : string :=
  let ds := list_ascii_of_string (digits_of m) in
  match rev (drop_zeros (rev ds)) with
  | d :: rest =>
      string_of_list_ascii
        (d :: match rest with [] => [] | _ => "."%char :: rest end ++
         "e"%char :: "+"%char ::
         list_ascii_of_string (digits_of (Z.of_nat (length ds) - 1)))
  | [] => digits_of m
  end.

(** [Number::toString] on the number [n] stands for: the shortest
    decimal that denotes the double, written out in full below 10^21
    and with an exponent from there on, [-] in front of a negative
    one. *)
Definition Number_toString (n : Z) : string :=
  let d := double_round n in
  if Z.abs d <? 2 ^ 1024
  then let m := shortest_decimal (Z.abs d) in
       (if d <? 0 then "-" else "") +:+
       (if m <? 10 ^ 21 then digits_of m else exponent_form m)
  else if n <? 0 then "-Infinity" else "Infinity".

Definition is_digit (c : ascii) : bool :=
  let n := nat_of_ascii c in (48 <=? n)%nat && (n <=? 57)%nat.

Definition is_hex_digit (c : ascii) : bool :=
  let n := nat_of_ascii c in
  is_digit c || ((65 <=? n)%nat && (n <=? 70)%nat)
             || ((97 <=? n)%nat && (n <=? 102)%nat).

(** White space and line terminators among the first 256 code units:
    TAB, LF, VT, FF, CR, SP and NBSP. *)
Definition is_space (c : ascii) : bool :=
  let n := nat_of_ascii c in
  ((9 <=? n)%nat && (n <=? 13)%nat) || (n =? 32)%nat || (n =? 160)%nat.

Fixpoint drop_space (l : list ascii) : list ascii :=
  match l with
  | c :: l' => if is_space c then drop_space l' else l
  | [] => []
  end.

Definition trim (l : list ascii) : list ascii :=
  rev (drop_space (rev (drop_space l))).

(** The leading decimal digits of [l]: how many, and what follows. *)
Fixpoint span_digits (l : list ascii) : nat * list ascii :=
  match l with
  | c :: l' =>
      if is_digit c
      then let '(n, r) := span_digits l' in (S n, r)
      else (O, l)
  | [] => (O, [])
  end.

Definition nonempty_all (p : ascii -> bool) (l : list ascii) : bool :=
  match l with [] => false | _ => forallb p l end.

Definition is_sign (c : ascii) : bool :=
  Ascii.eqb c "+" || Ascii.eqb c "-".

(** ExponentPart, optional, up to the end of the literal. *)
Definition exponent_opt (l : list ascii) : bool :=
  match l with
  | [] => true
  | c :: r =>
      (Ascii.eqb c "e" || Ascii.eqb c "E") &&
      match r with
      | s :: r' => if is_sign s then nonempty_all is_digit r'
                   else nonempty_all is_digit r
      | [] => false
      end
  end.

(** StrUnsignedDecimalLiteral *)
Definition unsigned_decimal (l : list ascii) : bool :=
  if String.eqb (string_of_list_ascii l) "Infinity" then true
  else
    let '(n, r) := span_digits l in
    match r with
    | c :: r' =>
        if Ascii.eqb c "."
        then let '(m, r'') := span_digits r' in
             (negb (n =? 0)%nat || negb (m =? 0)%nat) && exponent_opt r''
        else negb (n =? 0)%nat && exponent_opt r
    | [] => negb (n =? 0)%nat
    end.

(** NonDecimalIntegerLiteral: [0x], [0o] and [0b] literals; [None] when
    [l] does not start like one. *)
Definition radix_literal (l : list ascii) : option bool :=
  match l with
  | c :: p :: r =>
      if negb (Ascii.eqb c "0") then None
      else if Ascii.eqb p "x" || Ascii.eqb p "X"
      then Some (nonempty_all is_hex_digit r)
      else if Ascii.eqb p "o" || Ascii.eqb p "O"
      then Some (nonempty_all
                   (fun d => is_digit d && (nat_of_ascii d <=? 55)%nat) r)
      else if Ascii.eqb p "b" || Ascii.eqb p "B"
      then Some (nonempty_all
                   (fun d => Ascii.eqb d "0" || Ascii.eqb d "1") r)
      else None
  | _ => None
  end.

(** StringNumericLiteral: whether [StringToNumber s] is a number rather
    than [NaN]. White space around the literal is dropped and the empty
    literal is 0; a literal with a radix prefix takes no sign. *)
Definition StringToNumber_ok (s : string) : bool :=
  match trim (list_ascii_of_string s) with
  | [] => true
  | c :: r =>
      match radix_literal (c :: r) with
      | Some b => b
      | None => if is_sign c then unsigned_decimal r
                else unsigned_decimal (c :: r)
      end
  end.

(** ** Built-in conversions *)

(** What an object brings along for the conversions, taken as given:
    the string its [toString] method returns, and whether [ToNumber] of
    the object, which asks its [valueOf] method first and its [toString]
    method next, is [NaN]. *)
Record conversions := {
  object_toString : heap -> loc -> string;
  object_isNaN : heap -> loc -> bool;
}.

Section Conversions.

Variable objects : conversions.

Definition ToString (h : heap) (v : value) : string :=
  match v with
  | VUndef => "undefined"
  | VNull => "null"
  | VBool true => "true"
  | VBool false => "false"
  | VNum n => Number_toString n
  | VStr s => s
  | VRef l => object_toString objects h l
  | VNaN => "NaN"
  | VInf false => "Infinity"
  | VInf true => "-Infinity"
  end.

(** The global [isNaN(v)]: whether [ToNumber v] is [NaN]. [null] and the
    booleans convert to 0 and 1, a string converts as a numeric literal,
    an object through its own methods. *)
Definition isNaN (h : heap) (v : value) : bool :=
  match v with
  | VUndef | VNaN => true
  | VNull | VBool _ | VNum _ | VInf _ => false
  | VStr s => negb (StringToNumber_ok s)
  | VRef l => object_isNaN objects h l
  end.

(** [Array.prototype.join]: [undefined] and [null] elements give the
    empty string. *)
Definition join_item (h : heap) (v : value) : string :=
  match v with
  | VUndef | VNull => ""
  | _ => ToString h v
  end.

Definition Array_join (h : heap) (sep : string) (es : list value) : string :=
  String.concat sep (map (join_item h) es).

(** [Array.prototype.sort] without a comparator: [undefined] goes last,
    the rest is ordered by the code units of [ToString]. The sort is
    stable, which fixes its result; it is written here as an insertion
    sort. *)
Definition sort_le (h : heap) (x y : value) : bool :=
  match x, y with
  | VUndef, VUndef => true
  | VUndef, _ => false
  | _, VUndef => true
  | _, _ => String.leb (ToString h x) (ToString h y)
  end.

Fixpoint sort_insert (h : heap) (x : value) (l : list value) : list value :=
  match l with
  | [] => [x]
  | y :: l' => if sort_le h x y then x :: l else y :: sort_insert h x l'
  end.

Definition sorted (h : heap) (es : list value) : list value :=
  foldr (sort_insert h) [] es.

(** [a.sort()] reorders the array in place and returns it. *)
Definition Array_sort (h : heap) (v : value) : heap * list value :=
  match v with
  | VRef l =>
      match h !! l with
      | Some (HArr es ps) =>
          let es' := sorted h es in (<[l := HArr es' ps]> h, es')
      | _ => (h, [])
      end
  | _ => (h, [])
  end.

(** ** The filter compiler *)

(** [val => (isNaN(val) ? `'${val}'` : val)] *)
Definition quote_item (h : heap) (val : value) : value :=
  if isNaN h val then VStr ("'" +:+ ToString h val +:+ "'") else val.

(** The body of the [for (const filterKey in filterObj)] loop, on the
    store and [filterString]. The one-element array [[value]] and the
    array that [map] returns do not outlive the iteration and take no
    place in the store. *)
Definition filter_step (filterObj : props)
    (acc : heap * string) (filterKey : string) : heap * string :=
  let '(h, filterString) := acc in
  let value := default VUndef (prop_get filterKey filterObj) in
  let '(h, items) :=
    if negb (Array_isArray h value) then (h, [value]) else Array_sort h value in
  let filterString :=
    if negb (String.eqb filterString "")
    then filterString +:+ " or " else filterString in
  (h, filterString +:+ filterKey +:+ " in (" +:+
        Array_join h ", " (map (quote_item h) items) +:+ ")").

(** [getOdataFilter(filterObj)], for the object literal [filterObj] that
    its callers build: the store it leaves (arrays are sorted in place)
    and the string it returns. *)
Definition getOdataFilter (h : heap) (filterObj : props) : heap * string :=
  let '(h', filterString) :=
    fold_left (filter_step filterObj) (map fst filterObj) (h, "") in
  (h', "$filter=" +:+ filterString).

End Conversions.

(** The elements of an array as the properties they are under their
    indices. *)
Definition index_props (es : list value) : props :=
  imap (fun i v => (digits_of (Z.of_nat i), v)) es.

(** [const filterObj = {}; filterObj[target] = id;], by the properties
    that [for ... in] and [filterObj[filterKey]] then find. For every
    target but one the assignment creates the property. For [__proto__]
    it creates none and runs the setter of [Object.prototype] instead:
    an [id] that is an object becomes the prototype of [filterObj], and
    the loop goes through its properties as inherited ones; [null] takes
    the prototype away; any other [id] is ignored. *)
Definition reference_filterObj (h : heap) (target : string) (id : value)
    : props :=
  if String.eqb target "__proto__"
  then match id with
       | VRef l =>
           match h !! l with
           | Some (HObj ps) => ps
           | Some (HArr es ps) => index_props es ++ ps
           | None => []
           end
       | _ => []
       end
  else prop_set target id [].

(** ** Exceptions, requests and promises *)

(** What is thrown, and what a promise is rejected with: a [TypeError]
    raised by the language, or a reason the transport gives. *)
Inductive error :=
| TypeError
| Reason (v : value).

(** [httpClient(url, options)]: [method] and [body] are [None] where the
    handler passes none (the transport then issues a GET); the body is
    also [None] when [JSON.stringify] returns [undefined]. *)
Record request := {
  url : string;
  method : option string;
  body : option string;
}.

(** What the transport resolves with; the handlers read [json] only. *)
Record response := { json : value }.

Inductive settled (A : Type) :=
| Fulfilled (a : A)
| Rejected (e : error).
Arguments Fulfilled {A} a.
Arguments Rejected {A} e.

(** A promise, by the way it settles and the time at which it does;
    the time decides which rejection [Promise.all] reports. *)
Record promise (A : Type) := {
  settles_at : nat;
  outcome : settled A;
}.
Arguments settles_at {A} p.
Arguments outcome {A} p.

(** The object a handler resolves with: [{ data }] or [{ data, total }]. *)
Record result := {
  data : value;
  total : option value;
}.

(** The state a handler runs in: the store, and the requests handed to
    the transport so far. *)
Record world := {
  store : heap;
  sent : list request;
}.

Inductive completion (A : Type) :=
| Return (a : A)
| Throw (e : error).
Arguments Return {A} a.
Arguments Throw {A} e.

(** Synchronous code: it changes the world and returns or throws. What
    it wrote before throwing stays written. *)
Definition M (A : Type) : Type := world -> world * completion A.

Definition ret {A} (a : A) : M A := fun w => (w, Return a).

Definition bind {A B} (c : M A) (k : A -> M B) : M B :=
  fun w =>
    match c w with
    | (w', Return a) => k a w'
    | (w', Throw e) => (w', Throw e)
    end.

Notation "x <- c ;; k" := (bind c (fun x => k))
  (at level 100, c at next level, right associativity).
Notation "c ;;; k" := (bind c (fun _ => k))
  (at level 100, right associativity).

Definition get_store : M heap := fun w => (w, Return (store w)).

(** A read that throws [TypeError] where the operation is undefined. *)
Definition reading {A} (f : heap -> option A) : M A :=
  fun w =>
    match f (store w) with
    | Some a => (w, Return a)
    | None => (w, Throw TypeError)
  end.

(** A write that throws [TypeError] where the operation is undefined. *)
Definition writing (f : heap -> option heap) : M unit :=
  fun w =>
    match f (store w) with
    | Some h => ({| store := h; sent := sent w |}, Return tt)
    | None => (w, Throw TypeError)
    end.

(** [new Array], [{...}]: a location the store does not use yet. *)
Definition alloc (o : object) : M value :=
  fun w =>
    let l := fresh (dom (store w)) in
    ({| store := <[l := o]> (store w); sent := sent w |}, Return (VRef l)).

Fixpoint mapM {A B} (f : A -> M B) (l : list A) : M (list B) :=
  match l with
  | [] => ret []
  | x :: l' => y <- f x ;; ys <- mapM f l' ;; ret (y :: ys)
  end.

(** The elements [a.map(f)] visits; [map] on anything but an array is a
    [TypeError] here. *)
Definition Array_elems (v : value) : M (list value) :=
  reading (fun h =>
    match v with
    | VRef l => match h !! l with Some (HArr es _) => Some es | _ => None end
    | _ => None
    end).

(** [p.then(cb)]: [cb] runs on the value [p] is fulfilled with, and what
    it throws rejects the new promise; a rejected [p] passes its reason
    on and [cb] does not run. The handler is followed on its own: nothing
    else touches the store between the request and its callback. *)
Definition then_ {A B} (p : promise A) (cb : A -> M B) : M (promise B) :=
  fun w =>
    match outcome p with
    | Fulfilled a =>
        match cb a w with
        | (w', Return b) =>
            (w', Return {| settles_at := settles_at p; outcome := Fulfilled b |})
        | (w', Throw e) =>
            (w', Return {| settles_at := settles_at p; outcome := Rejected e |})
        end
    | Rejected e =>
        (w, Return {| settles_at := settles_at p; outcome := Rejected e |})
    end.

(** The rejection that comes first in time, the earlier position winning
    a tie. *)
Fixpoint first_rejection {A} (ps : list (promise A)) : option (nat * error) :=
  match ps with
  | [] => None
  | p :: ps' =>
      match outcome p, first_rejection ps' with
      | Rejected e, Some (t, e') =>
          if (settles_at p <=? t)%nat then Some (settles_at p, e)
          else Some (t, e')
      | Rejected e, None => Some (settles_at p, e)
      | Fulfilled _, r => r
      end
  end.

Fixpoint fulfilled_values {A} (ps : list (promise A)) : list A :=
  match ps with
  | [] => []
  | p :: ps' =>
      match outcome p with
      | Fulfilled a => a :: fulfilled_values ps'
      | Rejected _ => fulfilled_values ps'
      end
  end.

(** [Promise.all(ps)]: rejected with the first rejection there is, else
    fulfilled with the values in the order of [ps] once the last one is
    there. *)
Definition Promise_all {A} (ps : list (promise A)) : promise (list A) :=
  match first_rejection ps with
  | Some (t, e) => {| settles_at := t; outcome := Rejected e |}
  | None =>
      {| settles_at := foldr Nat.max 0%nat (map settles_at ps);
         outcome := Fulfilled (fulfilled_values ps) |}
  end.

(** ** The identifier normaliser *)

(** [json.id = json.Id; return json;] *)
Definition idFuncSingle (json : value) : M value :=
  Id <- reading (fun h => Get h json "Id") ;;
  writing (fun h => Put h json "id" Id) ;;;
  ret json.

(** [json.map(item => idFuncSingle(item))] on an array, [idFuncSingle]
    on anything else. The array [map] returns enters the store once it
    is filled. *)
Definition idFunc (json : value) : M value :=
  h <- get_store ;;
  if Array_isArray h json
  then items <- Array_elems json ;;
       items' <- mapM (fun item => idFuncSingle item) items ;;
       alloc (HArr items' [])
  else idFuncSingle json.

(** ** The data provider *)

(** [params.pagination] and [params.sort] of [getList]. *)
Record Pagination := { page : Z; perPage : Z }.
Record Sort := { field : string; order : string }.

Section DataProvider.

(** The arguments of the default export. The transport answers a
    request, knowing the requests before it, with a promise of a
    response. *)
Variable apiUrl : string.
Variable httpClient : list request -> request -> promise response.

(** What the module imports or finds in the language: [JSON.stringify]
    (on data it can serialise; [None] is [undefined]), [stringify] of
    [query-string], [fetchUtils.flattenObject] (by the properties of the
    object it returns), and the conversions of objects. *)
Variable JSON_stringify : heap -> value -> option string.
Variable stringify : heap -> props -> string.
Variable flattenObject : heap -> value -> props.
Variable objects : conversions.

(** A call of [httpClient]: the request goes out, a promise comes back. *)
Definition fetch (req : request) : M (promise response) :=
  fun w =>
    ({| store := store w; sent := sent w ++ [req] |},
     Return (httpClient (sent w) req)).

(** The object literal [query] of [getList]: the spread of the flattened
    filter, then the four keys in turn, [_start] and [_end] in the
    arithmetic of doubles. *)
Definition getList_query (h : heap) (pagination : Pagination) (sort : Sort)
    (filter : value) : props :=
  let '{| page := page; perPage := perPage |} := pagination in
  let '{| field := field; order := order |} := sort in
  let page := Number_of_Z page in
  let perPage := Number_of_Z perPage in
  prop_set "_end" (Number_value (Number_mul page perPage))
    (prop_set "_start"
       (Number_value (Number_mul (Number_sub page (Finite 1)) perPage))
       (prop_set "_order" (VStr order)
          (prop_set "_sort" (VStr field)
             (flattenObject h filter)))).

(** [({ headers, json }) => { const { value } = json;
      return { data: idFunc(value), total: value.length }; }] *)
Definition envelope_result (r : response) : M result :=
  value <- reading (fun h => Get h (json r) "value") ;;
  data <- idFunc value ;;
  total <- reading (fun h => Get h value "length") ;;
  ret {| data := data; total := Some total |}.

(** [getList]: one GET of [apiUrl/resource?stringify(query)], then the
    envelope. *)
Definition getList (resource : string) (pagination : Pagination)
    (sort : Sort) (filter : value) : M (promise result) :=
  h <- get_store ;;
  let query := getList_query h pagination sort filter in
  let url := apiUrl +:+ "/" +:+ resource +:+ "?" +:+ stringify h query in
  p <- fetch {| url := url; method := None; body := None |} ;;
  then_ p envelope_result.

(** [getOne]: one GET of [apiUrl/resource/id], then [{ data:
    idFunc(json) }]. *)
Definition getOne (resource : string) (id : value) : M (promise result) :=
  h <- get_store ;;
  p <- fetch {| url := apiUrl +:+ "/" +:+ resource +:+ "/" +:+
                       ToString objects h id;
                method := None; body := None |} ;;
  then_ p (fun r =>
    data <- idFunc (json r) ;;
    ret {| data := data; total := None |}).

(** [getMany]: the filter [{ Id: params.ids }] goes through
    [getOdataFilter], which sorts the caller's array of ids in place;
    then one GET and [{ data: idFunc(json.value) }]. *)
Definition getMany (resource : string) (ids : value) : M (promise result) :=
  let filterObj := [("Id", ids)] in
  odataFilter <- (fun w =>
    let '(h, s) := getOdataFilter objects (store w) filterObj in
    ({| store := h; sent := sent w |}, Return s)) ;;
  let url := apiUrl +:+ "/" +:+ resource +:+ "?" +:+ odataFilter in
  p <- fetch {| url := url; method := None; body := None |} ;;
  then_ p (fun r =>
    value <- reading (fun h => Get h (json r) "value") ;;
    data <- idFunc value ;;
    ret {| data := data; total := None |}).

(** [getManyReference]: [filterObj[target] = id] on an empty object, one
    GET with the compiled filter, then the envelope. *)
Definition getManyReference (resource : string) (target : string)
    (id : value) : M (promise result) :=
  h <- get_store ;;
  let filterObj := reference_filterObj h target id in
  odataFilter <- (fun w =>
    let '(h, s) := getOdataFilter objects (store w) filterObj in
    ({| store := h; sent := sent w |}, Return s)) ;;
  let url := apiUrl +:+ "/" +:+ resource +:+ "?" +:+ odataFilter in
  p <- fetch {| url := url; method := None; body := None |} ;;
  then_ p envelope_result.

(** [params.data] is the caller's object: [delete] and [idFunc] write to
    it, [JSON.stringify] reads it in between. *)
Definition update (resource : string) (id : value) (data : value)
    : M (promise result) :=
  writing (fun h => Delete h data "id") ;;;
  h <- get_store ;;
  p <- fetch {| url := apiUrl +:+ "/" +:+ resource +:+ "/" +:+
                       ToString objects h id;
                method := Some "PUT";
                body := JSON_stringify h data |} ;;
  then_ p (fun _ =>
    data' <- idFunc data ;;
    ret {| data := data'; total := None |}).

(** [updateMany]: [Promise.all] of one PUT per id, each with the body
    [JSON.stringify(params.data)], then the array of [json.Id] of the
    responses. *)
Definition updateMany (resource : string) (ids : value) (data : value)
    : M (promise result) :=
  ids' <- Array_elems ids ;;
  ps <- mapM (fun id =>
          h <- get_store ;;
          fetch {| url := apiUrl +:+ "/" +:+ resource +:+ "/" +:+
                         ToString objects h id;
                   method := Some "PUT";
                   body := JSON_stringify h data |}) ids' ;;
  then_ (Promise_all ps) (fun responses =>
    Ids <- mapM (fun r => reading (fun h => Get h (json r) "Id")) responses ;;
    data' <- alloc (HArr Ids []) ;;
    ret {| data := data'; total := None |}).

(** [create]: one POST to [apiUrl/resource], then [{ data:
    idFunc(json) }]. *)
Definition create (resource : string) (data : value) : M (promise result) :=
  h <- get_store ;;
  p <- fetch {| url := apiUrl +:+ "/" +:+ resource;
                method := Some "POST";
                body := JSON_stringify h data |} ;;
  then_ p (fun r =>
    data' <- idFunc (json r) ;;
    ret {| data := data'; total := None |}).

(** [delete]: [params] itself goes through [idFunc] and comes back. *)
Definition delete_ (resource : string) (params : value) : M (promise result) :=
  id <- reading (fun h => Get h params "id") ;;
  h <- get_store ;;
  p <- fetch {| url := apiUrl +:+ "/" +:+ resource +:+ "/" +:+
                       ToString objects h id;
                method := Some "DELETE"; body := None |} ;;
  then_ p (fun _ =>
    data' <- idFunc params ;;
    ret {| data := data'; total := None |}).

(** [deleteMany]: [Promise.all] of one DELETE per id, then [{ data:
    idFunc(params.ids) }]. *)
Definition deleteMany (resource : string) (ids : value) : M (promise result) :=
  ids' <- Array_elems ids ;;
  ps <- mapM (fun id =>
          h <- get_store ;;
          fetch {| url := apiUrl +:+ "/" +:+ resource +:+ "/" +:+
                         ToString objects h id;
                   method := Some "DELETE"; body := None |}) ids' ;;
  then_ (Promise_all ps) (fun _ =>
    data' <- idFunc ids ;;
    ret {| data := data'; total := None |}).

End DataProvider.

(** ** Definitions for the statements *)

(** What [idFuncSingle] makes of the properties of a record. *)
Definition normalized (ps : props) : props :=
  prop_set "id" (default VUndef (prop_get "Id" ps)) ps.

(** The identifiers of react-admin: numbers and strings. *)
Definition is_identifier (v : value) : bool :=
  match v with
  | VNum _ | VStr _ => true
  | _ => false
  end.

(** [ToString] of an identifier, which needs neither the store nor a
    [toString] method. *)
Definition identifier_string (v : value) : string :=
  match v with
  | VNum n => Number_toString n
  | VStr s => s
  | _ => ""
  end.

(** How the filter renders an identifier, from its string alone. *)
Definition render_key (s : string) : string :=
  if StringToNumber_ok s then s else "'" +:+ s +:+ "'".

Fixpoint string_insert (x : string) (l : list string) : list string :=
  match l with
  | [] => [x]
  | y :: l' => if String.leb x y then x :: l else y :: string_insert x l'
  end.

Definition string_sort (l : list string) : list string :=
  foldr string_insert [] l.


(** *** The filter string in the words of its specification *)

Section FilterSpecification.

Variable objects : conversions.






End FilterSpecification.

(** Code that hands nothing to the transport. *)
Definition keeps_sent {A} (c : M A) : Prop :=
  ∀ w, sent (fst (c w)) = sent w.

Section Transport.

Variable httpClient : list request -> request -> promise response.

(** The transport's answers to requests that go out one after another. *)
Fixpoint replies (hist : list request) (reqs : list request)
    : list (promise response) :=
  match reqs with
  | [] => []
  | req :: reqs' => httpClient hist req :: replies (hist ++ [req]) reqs'
  end.

(** A handler that sends one request and, when the transport rejects
    it, is rejected with the transport's reason. *)
Definition passes_rejection (handler : M (promise result)) : Prop :=
  ∀ w w' p,
    handler w = (w', Return p) →
    ∃ req,
      sent w' = sent w ++ [req]
      ∧ ∀ e, outcome (httpClient (sent w) req) = Rejected e →
             outcome p = Rejected e.

(** A handler that sends one request per element of [ids] and, when the
    transport rejects any of them, is rejected with the reason of a
    rejected request. *)
Definition fails_as_a_whole (ids : value) (handler : M (promise result))
    : Prop :=
  ∀ w w' p,
    handler w = (w', Return p) →
    ∃ es reqs,
      Array_elems ids w = (w, Return es)
      ∧ length reqs = length es
      ∧ sent w' = sent w ++ reqs
      ∧ (Exists (fun q => ∃ e, outcome q = Rejected e)
                (replies (sent w) reqs) →
         ∃ q e, q ∈ replies (sent w) reqs
                ∧ outcome q = Rejected e
                ∧ outcome p = Rejected e).

End Transport.

(** ** Worked instances *)

(** The conversions of plain objects: the string [[object Object]],
    which is no number. *)
Definition plain_object : conversions :=
  {| object_toString := fun _ _ => "[object Object]";
     object_isNaN := fun _ _ => true |}.


(** A transport that fulfils every request with the body [json_of]
    assigns to it, one tick after the other. *)
Definition answering (json_of : request -> value)
    : list request -> request -> promise response :=
  fun hist req =>
    {| settles_at := length hist;
       outcome := Fulfilled {| json := json_of req |} |}.

(** A transport that rejects every request with [e]. *)
Definition rejecting (e : error) : list request -> request -> promise response :=
  fun hist req => {| settles_at := length hist; outcome := Rejected e |}.

(** A transport that rejects the requests for [bad] and fulfils the
    others without a body. *)
Definition rejecting_url (bad : string) (e : error)
    : list request -> request -> promise response :=
  fun hist req =>
    {| settles_at := length hist;
       outcome := if String.eqb (url req) bad then Rejected e
                  else Fulfilled {| json := VUndef |} |}.

(** Stand-ins for [JSON.stringify], which here lists the property names
    of a record, for [stringify] and for [flattenObject]. *)
Definition property_names : heap -> value -> option string :=
  fun h v =>
    match v with
    | VRef l =>
        match h !! l with
        | Some (HObj ps) => Some (String.concat "," (map fst ps))
        | _ => None
        end
    | _ => None
    end.
Definition no_query : heap -> props -> string := fun _ _ => "".
Definition no_filter : heap -> value -> props := fun _ _ => [].

(** [flattenObject] on a record none of whose fields holds an object:
    the fields of the record, as they are. *)
Definition flat_fields : heap -> value -> props :=
  fun h v =>
    match v with
    | VRef l => match h !! l with Some (HObj ps) => ps | _ => [] end
    | _ => []
    end.

(** A store with the record [{id: 7, Id: 7, title: 't'}] at 0, the
    record [{Id: 8}] at 1, the array of the two at 2, the envelope
    [{value: [...]}] at 3 and the array of ids [[4, 5]] at 4. *)
Definition example_store : heap :=
  {[ 0%nat := HObj [("id", VNum 7); ("Id", VNum 7); ("title", VStr "t")];
     1%nat := HObj [("Id", VNum 8)];
     2%nat := HArr [VRef 0%nat; VRef 1%nat] [];
     3%nat := HObj [("value", VRef 2%nat)];
     4%nat := HArr [VNum 4; VNum 5] [] ]}.

Definition example_world : world := {| store := example_store; sent := [] |}.

(** ** Definitions for the further statements *)

(** A value that is no object: [undefined], [null], a boolean, a number
    or a string. *)
Definition is_primitive (v : value) : bool :=
  match v with
  | VRef _ => false
  | _ => true
  end.

(** [undefined] and [null], on which every property access throws. *)
Definition is_nullish (v : value) : bool :=
  match v with
  | VUndef | VNull => true
  | _ => false
  end.

(** A handler that sends one request and, when the transport rejects
    it, has left the store as it found it. *)
Definition keeps_store_when_rejected
    (httpClient : list request -> request -> promise response)
    (handler : M (promise result)) : Prop :=
  ∀ w w' p,
    handler w = (w', Return p) →
    ∃ req,
      sent w' = sent w ++ [req]
      ∧ ∀ e, outcome (httpClient (sent w) req) = Rejected e →
             store w' = store w.

(** A handler that sends its requests and, when the transport rejects
    any of them, has left the store as it found it. *)
Definition keeps_store_when_any_rejected
    (httpClient : list request -> request -> promise response)
    (handler : M (promise result)) : Prop :=
  ∀ w w' p,
    handler w = (w', Return p) →
    ∃ reqs,
      sent w' = sent w ++ reqs
      ∧ (Exists (fun q => ∃ e, outcome q = Rejected e)
                (replies httpClient (sent w) reqs) →
         store w' = store w).

(** A second store: besides the objects of [example_store], the record
    [{id: 7}] at 5, the array of the record at 1 and the number 4 at 6,
    an empty array at 7, the record [{count: 1}] at 8 and the array of
    ids [[9, 'a', 10]] at 9. *)
Definition edge_store : heap :=
  {[ 0%nat := HObj [("id", VNum 7); ("Id", VNum 7); ("title", VStr "t")];
     1%nat := HObj [("Id", VNum 8)];
     2%nat := HArr [VRef 0%nat; VRef 1%nat] [];
     3%nat := HObj [("value", VRef 2%nat)];
     4%nat := HArr [VNum 4; VNum 5] [];
     5%nat := HObj [("id", VNum 7)];
     6%nat := HArr [VRef 1%nat; VNum 4] [];
     7%nat := HArr [] [];
     8%nat := HObj [("count", VNum 1)];
     9%nat := HArr [VNum 9; VStr "a"; VNum 10] [] ]}.

Definition edge_world : world := {| store := edge_store; sent := [] |}.

(** * Properties *)

(** ** Worked values *)

Example numeric_literals :
  map StringToNumber_ok
      ["5"; "-12"; " 7 "; ""; "1e5"; ".5"; "5."; "0x1F"; "Infinity";
       "0b101"; "0o17"; "x"; "abc"; "1,2"; "-"; "."; "1e"; "0x"; "-0x10";
       "0b2"; "true"; "null"]
  = [true; true; true; true; true; true; true; true; true;
     true; true; false; false; false; false; false; false; false; false;
     false; false; false].
Proof. reflexivity. Qed.

Example filter_A_B :
  snd (getOdataFilter plain_object ∅ [("A", VNum 1); ("B", VStr "x")])
  = "$filter=A in (1) or B in ('x')".
Proof. reflexivity. Qed.

Example filter_sorted :
  getOdataFilter plain_object
    {[ 0%nat := HArr [VNum 3; VNum 1; VNum 2] [] ]} [("Id", VRef 0%nat)]
  = ({[ 0%nat := HArr [VNum 1; VNum 2; VNum 3] [] ]}, "$filter=Id in (1, 2, 3)").
Proof. reflexivity. Qed.

Example filter_quoting :
  snd (getOdataFilter plain_object
         {[ 0%nat := HArr [VStr "abc"; VNum 5] [] ]} [("Id", VRef 0%nat)])
  = "$filter=Id in (5, 'abc')".
Proof. reflexivity. Qed.

Example filter_lexicographic :
  snd (getOdataFilter plain_object
         {[ 0%nat := HArr [VNum 9; VNum 10] [] ]} [("Id", VRef 0%nat)])
  = "$filter=Id in (10, 9)".
Proof. reflexivity. Qed.

(** ** Property lists *)

Lemma prop_get_set_eq k v ps : prop_get k (prop_set k v ps) = Some v.
Proof.
  induction ps as [|[k' v'] ps IH]; simpl.
  - by rewrite String.eqb_refl.
  - destruct (String.eqb k k') eqn:E; simpl.
    + by rewrite String.eqb_refl.
    + by rewrite E.
Qed.

Lemma prop_get_set_ne k k' v ps :
  k ≠ k' → prop_get k' (prop_set k v ps) = prop_get k' ps.
Proof.
  intros Hne. induction ps as [|[k'' v''] ps IH]; simpl.
  - apply String.eqb_neq in Hne. rewrite String.eqb_sym in Hne. by rewrite Hne.
  - destruct (String.eqb k k'') eqn:E; simpl.
    + apply String.eqb_eq in E as <-.
      destruct (String.eqb k' k) eqn:E'; [|done].
      apply String.eqb_eq in E'. congruence.
    + by rewrite IH.
Qed.

Lemma prop_get_del_eq k ps : prop_get k (prop_del k ps) = None.
Proof.
  induction ps as [|[k' v'] ps IH]; simpl; [done|].
  destruct (String.eqb k k') eqn:E; simpl; [done|]. by rewrite E.
Qed.

Lemma prop_get_del_ne k k' ps :
  k ≠ k' → prop_get k' (prop_del k ps) = prop_get k' ps.
Proof.
  intros Hne. induction ps as [|[k'' v''] ps IH]; simpl; [done|].
  destruct (String.eqb k k'') eqn:E; simpl.
  - apply String.eqb_eq in E as <-.
    destruct (String.eqb k' k) eqn:E'; [|done].
    apply String.eqb_eq in E'. congruence.
  - by rewrite IH.
Qed.

Lemma prop_set_set k v ps : prop_set k v (prop_set k v ps) = prop_set k v ps.
Proof.
  induction ps as [|[k' v'] ps IH]; simpl.
  - by rewrite String.eqb_refl.
  - destruct (String.eqb k k') eqn:E; simpl.
    + by rewrite String.eqb_refl.
    + by rewrite E, IH.
Qed.

(** ** The identifier normaliser *)

Lemma normalized_idem ps : normalized (normalized ps) = normalized ps.
Proof.
  unfold normalized. rewrite prop_get_set_ne by done. apply prop_set_set.
Qed.

Lemma normalized_id ps v :
  prop_get "Id" ps = Some v → prop_get "id" (normalized ps) = Some v.
Proof. intros H. unfold normalized. by rewrite H, prop_get_set_eq. Qed.

Lemma normalized_other ps k :
  k ≠ "id" → prop_get k (normalized ps) = prop_get k ps.
Proof. intros H. unfold normalized. by rewrite prop_get_set_ne. Qed.

Lemma idFuncSingle_record w l ps :
  store w !! l = Some (HObj ps) →
  idFuncSingle (VRef l) w
  = ({| store := <[l := HObj (normalized ps)]> (store w); sent := sent w |},
     Return (VRef l)).
Proof.
  intros H. unfold idFuncSingle, bind, reading, writing, ret; simpl.
  rewrite H; simpl. by rewrite H.
Qed.

(** In strict mode code a primitive cannot take the property. *)
Lemma idFuncSingle_primitive w v :
  (∀ l, v ≠ VRef l) → idFuncSingle v w = (w, Throw TypeError).
Proof.
  intros H. unfold idFuncSingle, bind, reading, writing, ret.
  destruct v; simpl; try done. by destruct (H l).
Qed.

Lemma mapM_idFuncSingle_records ls : ∀ w,
  (∀ l, l ∈ ls → ∃ ps, store w !! l = Some (HObj ps)) →
  ∃ h',
    mapM (fun item => idFuncSingle item) (map VRef ls) w
    = ({| store := h'; sent := sent w |}, Return (map VRef ls))
    ∧ dom h' = dom (store w)
    ∧ (∀ l, l ∉ ls → h' !! l = store w !! l)
    ∧ (∀ l ps, l ∈ ls → store w !! l = Some (HObj ps) →
         h' !! l = Some (HObj (normalized ps))).
Proof.
  induction ls as [|l ls IH]; intros w Hrec.
  - exists (store w). destruct w. simpl. split_and!; try done.
    intros l ps Hl. by apply elem_of_nil in Hl.
  - destruct (Hrec l) as [ps Hps]; [by left|].
    set (w1 := {| store := <[l := HObj (normalized ps)]> (store w);
                  sent := sent w |}).
    destruct (IH w1) as (h' & Hrun & Hdom & Hframe & Hnorm).
    { intros l' Hl'. simpl. destruct (decide (l = l')) as [<-|Hne].
      - rewrite lookup_insert_eq. eauto.
      - rewrite lookup_insert_ne by done. apply Hrec. by right. }
    exists h'. split_and!.
    + cbn [mapM map]. unfold bind at 1.
      rewrite (idFuncSingle_record w l ps Hps). fold w1.
      unfold bind at 1. rewrite Hrun. done.
    + rewrite Hdom. simpl. rewrite dom_insert_L.
      apply elem_of_dom_2 in Hps. apply subseteq_union_1_L.
      by apply singleton_subseteq_l.
    + intros l' Hl'. apply not_elem_of_cons in Hl' as [Hne Hl'].
      rewrite Hframe by done. simpl. by rewrite lookup_insert_ne.
    + intros l' ps' Hl' Hps'. destruct (decide (l' ∈ ls)) as [Hin|Hnin].
      * destruct (decide (l = l')) as [<-|Hne].
        -- assert (ps' = ps) as -> by congruence.
           rewrite (Hnorm l (normalized ps) Hin).
           ++ by rewrite normalized_idem.
           ++ simpl. by rewrite lookup_insert_eq.
        -- apply Hnorm; [done|]. simpl. by rewrite lookup_insert_ne.
      * apply elem_of_cons in Hl' as [->|?]; [|done].
        assert (ps' = ps) as -> by congruence.
        rewrite Hframe by done. simpl. by rewrite lookup_insert_eq.
Qed.

(** [idFunc] on an array of records: the records are normalised where
    they are, and a new array of the same records comes back. *)
Lemma idFunc_records w la ls aps :
  store w !! la = Some (HArr (map VRef ls) aps) →
  (∀ l, l ∈ ls → ∃ ps, store w !! l = Some (HObj ps)) →
  ∃ h' lnew,
    idFunc (VRef la) w = ({| store := h'; sent := sent w |}, Return (VRef lnew))
    ∧ store w !! lnew = None
    ∧ h' !! lnew = Some (HArr (map VRef ls) [])
    ∧ (∀ l, l ∉ ls → l ≠ lnew → h' !! l = store w !! l)
    ∧ (∀ l ps, l ∈ ls → store w !! l = Some (HObj ps) →
         h' !! l = Some (HObj (normalized ps))).
Proof.
  intros Harr Hrec.
  destruct (mapM_idFuncSingle_records ls w Hrec)
    as (h1 & Hrun & Hdom & Hframe & Hnorm).
  set (lnew := fresh (dom h1)).
  assert (Hfresh : lnew ∉ dom h1) by apply is_fresh.
  assert (Hnew : store w !! lnew = None).
  { apply not_elem_of_dom. by rewrite <- Hdom. }
  exists (<[lnew := HArr (map VRef ls) []]> h1), lnew. split_and!.
  - unfold idFunc, bind, get_store, Array_elems, reading, alloc; simpl.
    rewrite Harr; cbn beta. rewrite Harr, Hrun. done.
  - done.
  - by rewrite lookup_insert_eq.
  - intros l Hl Hne. rewrite lookup_insert_ne by done. by apply Hframe.
  - intros l ps Hl Hps. rewrite lookup_insert_ne.
    + by apply Hnorm.
    + intros <-. congruence.
Qed.

(** C1. For every record with a field [Id] (a number, a string, or any
    other value), [idFunc] returns the record itself with [id] equal to
    the value of [Id] and every other field as it was; for an array of
    such records it returns a new array of the same length holding the
    same records in the same order, each of them normalised in this
    way. *)
Theorem idFunc_sets_id_from_Id :
  (∀ w l ps v,
     store w !! l = Some (HObj ps) →
     prop_get "Id" ps = Some v →
     ∃ ps',
       idFunc (VRef l) w
       = ({| store := <[l := HObj ps']> (store w); sent := sent w |},
          Return (VRef l))
       ∧ prop_get "id" ps' = Some v
       ∧ ∀ k, k ≠ "id" → prop_get k ps' = prop_get k ps)
  ∧ (∀ w la ls aps,
     store w !! la = Some (HArr (map VRef ls) aps) →
     (∀ l, l ∈ ls →
        ∃ ps v, store w !! l = Some (HObj ps) ∧ prop_get "Id" ps = Some v) →
     ∃ h' lnew,
       idFunc (VRef la) w
       = ({| store := h'; sent := sent w |}, Return (VRef lnew))
       ∧ store w !! lnew = None
       ∧ h' !! lnew = Some (HArr (map VRef ls) [])
       ∧ ∀ l ps v,
           l ∈ ls → store w !! l = Some (HObj ps) →
           prop_get "Id" ps = Some v →
           ∃ ps',
             h' !! l = Some (HObj ps')
             ∧ prop_get "id" ps' = Some v
             ∧ ∀ k, k ≠ "id" → prop_get k ps' = prop_get k ps).
Proof.
  split.
  - intros w l ps v Hl HId. exists (normalized ps). split_and!.
    + unfold idFunc, bind, get_store; simpl. rewrite Hl.
      by apply idFuncSingle_record.
    + by apply normalized_id.
    + intros k Hk. by apply normalized_other.
  - intros w la ls aps Harr Hrec.
    destruct (idFunc_records w la ls aps Harr)
      as (h' & lnew & Hrun & Hnew & Harr' & _ & Hnorm).
    { intros l Hl. destruct (Hrec l Hl) as (ps & v & ? & ?). eauto. }
    exists h', lnew. split_and!; try done.
    intros l ps v Hl Hps HId. exists (normalized ps). split_and!.
    + by apply Hnorm.
    + by apply normalized_id.
    + intros k Hk. by apply normalized_other.
Qed.

(** ** Numbers print as numeric literals *)

Lemma digit_not_space c : is_digit c = true → is_space c = false.
Proof.
  unfold is_digit, is_space. intros H.
  apply andb_true_iff in H as [H1 H2].
  apply Nat.leb_le in H1. apply Nat.leb_le in H2.
  repeat (apply orb_false_iff; split).
  - apply andb_false_iff. right. apply Nat.leb_gt. lia.
  - apply Nat.eqb_neq. lia.
  - apply Nat.eqb_neq. lia.
Qed.

Lemma digit_not_char c (d : ascii) :
  is_digit c = true → is_digit d = false → Ascii.eqb c d = false.
Proof.
  intros Hc Hd. destruct (Ascii.eqb_spec c d) as [->|]; [congruence|done].
Qed.

Lemma drop_space_head c l : is_space c = false → drop_space (c :: l) = c :: l.
Proof. intros H. simpl. by rewrite H. Qed.

Lemma trim_id c l d :
  is_space c = false → is_space d = false →
  trim ((c :: l) ++ [d])%list = ((c :: l) ++ [d])%list.
Proof.
  intros Hc Hd. unfold trim.
  change ((c :: l) ++ [d])%list with (c :: (l ++ [d])%list).
  rewrite drop_space_head by done.
  change (c :: (l ++ [d])%list) with ((c :: l) ++ [d])%list.
  rewrite rev_unit, drop_space_head by done.
  rewrite <- rev_unit. apply rev_involutive.
Qed.

Lemma span_digits_all l :
  forallb is_digit l = true → span_digits l = (length l, []).
Proof.
  induction l as [|c l IH]; simpl; [done|].
  intros [Hc Hl]%andb_true_iff. rewrite Hc, IH; done.
Qed.

Lemma unsigned_decimal_digits c l :
  forallb is_digit (c :: l) = true → unsigned_decimal (c :: l) = true.
Proof.
  intros H. unfold unsigned_decimal.
  assert (Hc : is_digit c = true) by (simpl in H; by apply andb_true_iff in H as [? _]).
  destruct (String.eqb_spec (string_of_list_ascii (c :: l)) "Infinity") as [E|_].
  - simpl in E. injection E as -> _. discriminate Hc.
  - by rewrite span_digits_all.
Qed.

Lemma radix_literal_digits c l :
  forallb is_digit l = true → radix_literal (c :: l) = None.
Proof.
  intros H. destruct l as [|p r]; simpl; [done|].
  simpl in H. apply andb_true_iff in H as [Hp _].
  destruct (negb (Ascii.eqb c "0")); [done|].
  by rewrite !(digit_not_char p) by done.
Qed.

Lemma last_split {A} (x : A) l : ∃ l' y, x :: l = (l' ++ [y])%list.
Proof.
  revert x. induction l as [|z l IH]; intros x.
  - by exists [], x.
  - destruct (IH z) as (l' & y & ->). by exists (x :: l'), y.
Qed.

Lemma trim_digits c l :
  is_space c = false → forallb is_digit l = true → trim (c :: l) = c :: l.
Proof.
  intros Hc Hl. destruct l as [|z l].
  - unfold trim. simpl. rewrite Hc. simpl. by rewrite Hc.
  - destruct (last_split z l) as (l' & y & E). rewrite E.
    apply (trim_id c l' y); [done|].
    apply digit_not_space.
    rewrite E in Hl. rewrite forallb_app in Hl.
    apply andb_true_iff in Hl as [_ Hy]. simpl in Hy.
    by apply andb_true_iff in Hy as [? _].
Qed.

Lemma uint_digits d :
  forallb is_digit (list_ascii_of_string (NilEmpty.string_of_uint d)) = true.
Proof. induction d; simpl; try done. Qed.

Lemma uint_nonempty d :
  d ≠ Decimal.Nil →
  ∃ c l, list_ascii_of_string (NilEmpty.string_of_uint d) = c :: l.
Proof. destruct d; simpl; try done; eauto. Qed.

Lemma digits_numeric s c l :
  list_ascii_of_string s = c :: l →
  forallb is_digit (c :: l) = true →
  StringToNumber_ok s = true.
Proof.
  intros E H. unfold StringToNumber_ok. rewrite E.
  pose proof H as H'. simpl in H'. apply andb_true_iff in H' as [Hc Hl].
  rewrite trim_digits by auto using digit_not_space.
  rewrite radix_literal_digits by done.
  rewrite (unsigned_decimal_digits c l H).
  unfold is_sign. by rewrite !(digit_not_char c) by done.
Qed.

Lemma negative_numeric s c l :
  list_ascii_of_string s = "-"%char :: c :: l →
  forallb is_digit (c :: l) = true →
  StringToNumber_ok s = true.
Proof.
  intros E H. unfold StringToNumber_ok. rewrite E.
  rewrite trim_digits by done.
  rewrite radix_literal_digits by done.
  cbn [is_sign Ascii.eqb orb]. simpl (is_sign _).
  by apply unsigned_decimal_digits.
Qed.

Lemma digits_of_digits x :
  forallb is_digit (list_ascii_of_string (digits_of x)) = true.
Proof. destruct x; try done. apply uint_digits. Qed.

Lemma digits_of_nonempty x :
  ∃ c l, list_ascii_of_string (digits_of x) = c :: l.
Proof.
  destruct x as [|p|p]; [by eexists _, _| |by eexists _, _].
  apply uint_nonempty, Unsigned.to_uint_nonnil.
Qed.

Lemma forallb_rev {A} (p : A → bool) l :
  forallb p l = true → forallb p (rev l) = true.
Proof.
  intros H. apply forallb_forall. intros x Hx. apply in_rev in Hx.
  by apply (proj1 (forallb_forall p l) H).
Qed.

Lemma forallb_drop_zeros l :
  forallb is_digit l = true → forallb is_digit (drop_zeros l) = true.
Proof.
  induction l as [|c l IH]; [done|]. intros H. simpl.
  destruct (Ascii.eqb c "0"); [|done].
  simpl in H. apply andb_true_iff in H as [_ H]. by apply IH.
Qed.

Lemma span_digits_app l1 c l2 :
  forallb is_digit l1 = true → is_digit c = false →
  span_digits (l1 ++ c :: l2) = (length l1, c :: l2).
Proof.
  intros H Hc. induction l1 as [|d l1 IH]; simpl.
  - by rewrite Hc.
  - simpl in H. apply andb_true_iff in H as [Hd H]. by rewrite Hd, IH.
Qed.

(** A literal that starts with a digit and ends before white space, with
    or without [-] in front. *)
Lemma signed_numeric d body y :
  is_digit d = true → is_space y = false →
  radix_literal ((d :: body) ++ [y]) = None →
  unsigned_decimal ((d :: body) ++ [y]) = true →
  StringToNumber_ok (string_of_list_ascii ((d :: body) ++ [y])) = true
  ∧ StringToNumber_ok
      (String "-" (string_of_list_ascii ((d :: body) ++ [y]))) = true.
Proof.
  intros Hd Hy Hradix Hdec. split.
  - unfold StringToNumber_ok. rewrite list_ascii_of_string_of_list_ascii.
    rewrite trim_id by auto using digit_not_space.
    change ((d :: body) ++ [y]) with (d :: (body ++ [y])) in *.
    cbv beta iota. rewrite Hradix. unfold is_sign.
    by rewrite !(digit_not_char d) by done.
  - unfold StringToNumber_ok. cbn [list_ascii_of_string].
    rewrite list_ascii_of_string_of_list_ascii.
    change ("-"%char :: (d :: body) ++ [y])
      with (("-"%char :: d :: body) ++ [y]).
    rewrite trim_id by done.
    change (("-"%char :: d :: body) ++ [y])
      with ("-"%char :: ((d :: body) ++ [y])).
    change ((d :: body) ++ [y]) with (d :: (body ++ [y])) in *.
    cbv beta iota. cbn [radix_literal]. change (Ascii.eqb "-" "0") with false.
    cbn [negb]. change (is_sign "-") with true. cbv iota. done.
Qed.

(** A digit, a fraction or none, and an exponent: a numeric literal. *)
Lemma exponent_literal_numeric d rest ex0 ex :
  is_digit d = true → forallb is_digit rest = true →
  forallb is_digit (ex0 :: ex) = true →
  let L := d :: match rest with [] => [] | _ => "."%char :: rest end ++
           "e"%char :: "+"%char :: ex0 :: ex in
  StringToNumber_ok (string_of_list_ascii L) = true
  ∧ StringToNumber_ok (String "-" (string_of_list_ascii L)) = true.
Proof.
  intros Hd Hrest Hex L.
  set (frac := match rest with [] => [] | _ => "."%char :: rest end) in *.
  destruct (last_split ex0 ex) as (ex' & y & Eex).
  assert (Hy : is_digit y = true).
  { rewrite Eex in Hex. rewrite forallb_app in Hex.
    apply andb_true_iff in Hex as [_ Hy]. simpl in Hy.
    by apply andb_true_iff in Hy as [? _]. }
  assert (HL : L = (d :: frac ++ "e"%char :: "+"%char :: ex') ++ [y]).
  { unfold L. rewrite Eex. simpl. f_equal. rewrite <- app_assoc. done. }
  assert (Hradix : radix_literal L = None).
  { unfold L, frac. destruct rest; simpl; by destruct (negb (Ascii.eqb d "0")). }
  assert (Hdec : unsigned_decimal L = true).
  { unfold unsigned_decimal.
    destruct (String.eqb_spec (string_of_list_ascii L) "Infinity")
      as [E|_]; [done|].
    unfold L, frac. destruct rest as [|r0 rest'].
    - simpl. rewrite Hd. simpl. done.
    - change (d :: ("."%char :: r0 :: rest') ++
              "e"%char :: "+"%char :: ex0 :: ex)
        with ([d] ++ "."%char :: (r0 :: rest') ++
              "e"%char :: "+"%char :: ex0 :: ex).
      rewrite span_digits_app; [|by simpl; rewrite Hd|done].
      change (Ascii.eqb "." ".") with true. cbv iota.
      rewrite span_digits_app; [|done|done].
      simpl length. cbn [Nat.eqb negb orb andb].
      unfold exponent_opt. change (Ascii.eqb "e" "e") with true.
      cbn [orb andb]. change (is_sign "+") with true. cbv iota. done. }
  rewrite HL in *. apply signed_numeric; auto using digit_not_space.
Qed.

Lemma exponent_form_numeric m :
  StringToNumber_ok (exponent_form m) = true
  ∧ StringToNumber_ok (String "-" (exponent_form m)) = true.
Proof.
  unfold exponent_form.
  pose proof (digits_of_digits m) as Hds.
  set (ds := list_ascii_of_string (digits_of m)) in *.
  assert (Hsig : forallb is_digit (rev (drop_zeros (rev ds))) = true).
  { by apply forallb_rev, forallb_drop_zeros, forallb_rev. }
  destruct (rev (drop_zeros (rev ds))) as [|d rest].
  - destruct (digits_of_nonempty m) as (c & l & E). split.
    + apply (digits_numeric _ c l E). rewrite <- E. apply digits_of_digits.
    + apply (negative_numeric _ c l).
      * simpl. by rewrite E.
      * rewrite <- E. apply digits_of_digits.
  - simpl in Hsig. apply andb_true_iff in Hsig as [Hd Hrest].
    destruct (digits_of_nonempty (Z.of_nat (length ds) - 1)) as (ex0 & ex & E).
    rewrite E. apply exponent_literal_numeric; [done..|].
    rewrite <- E. apply digits_of_digits.
Qed.

Lemma Number_toString_numeric n : StringToNumber_ok (Number_toString n) = true.
Proof.
  unfold Number_toString. cbv zeta.
  destruct (Z.abs (double_round n) <? 2 ^ 1024); [|by destruct (n <? 0)].
  set (m := shortest_decimal (Z.abs (double_round n))).
  destruct (double_round n <? 0).
  - destruct (m <? 10 ^ 21).
    + destruct (digits_of_nonempty m) as (c & l & E).
      apply (negative_numeric _ c l).
      * change ("-" +:+ digits_of m) with (String "-" (digits_of m)).
        simpl. by rewrite E.
      * rewrite <- E. apply digits_of_digits.
    + change ("-" +:+ exponent_form m) with (String "-" (exponent_form m)).
      apply exponent_form_numeric.
  - change ("" +:+ ?s) with s. destruct (m <? 10 ^ 21).
    + destruct (digits_of_nonempty m) as (c & l & E).
      apply (digits_numeric _ c l E). rewrite <- E. apply digits_of_digits.
    + apply exponent_form_numeric.
Qed.

(** ** The filter compiler *)





Section FilterCompiler.

Variable objects : conversions.






(** The filter for one field that holds an array. *)
Lemma getOdataFilter_array h filterKey l es ps :
  h !! l = Some (HArr es ps) →
  let es' := sorted objects h es in
  let h' := <[l := HArr es' ps]> h in
  getOdataFilter objects h [(filterKey, VRef l)]
  = (h', "$filter=" +:+ filterKey +:+ " in (" +:+
         Array_join objects h' ", "
           (map (quote_item objects h') es') +:+ ")").
Proof.
  intros Hl es' h'. unfold getOdataFilter. cbn [map fst fold_left].
  unfold filter_step. cbn [prop_get]. rewrite String.eqb_refl.
  change (default VUndef (Some (VRef l))) with (VRef l).
  unfold Array_isArray, Array_sort. rewrite Hl. cbn [negb].
  rewrite String.eqb_refl. cbn [negb]. done.
Qed.









End FilterCompiler.

(** ** Sorting identifiers *)

Lemma string_insert_perm x l : string_insert x l ≡ₚ x :: l.
Proof.
  induction l as [|y l IH]; simpl; [done|].
  destruct (String.leb x y); [done|].
  rewrite IH. apply Permutation_swap.
Qed.

Lemma string_sort_perm l : string_sort l ≡ₚ l.
Proof.
  induction l as [|x l IH]; simpl; [done|].
  by rewrite string_insert_perm, IH.
Qed.

Lemma string_insert_sorted x l :
  Sorted String.le l → Sorted String.le (string_insert x l).
Proof.
  induction 1 as [|y l Hl IH Hhd]; simpl.
  - repeat constructor.
  - destruct (String.leb x y) eqn:E.
    + constructor; [by constructor|]. constructor.
      unfold String.le. by rewrite E.
    + constructor; [done|].
      assert (Hyx : String.le y x).
      { unfold String.le. destruct (String.leb_total x y) as [H|H].
        - congruence.
        - by rewrite H. }
      destruct Hhd as [|z l' Hz]; simpl.
      * by constructor.
      * destruct (String.leb x z); by constructor.
Qed.

Lemma string_sort_sorted l : Sorted String.le (string_sort l).
Proof.
  induction l as [|x l IH]; simpl; [constructor|].
  by apply string_insert_sorted.
Qed.

Lemma string_sort_permutation l1 l2 :
  l1 ≡ₚ l2 → string_sort l1 = string_sort l2.
Proof.
  intros H. apply (Sorted_unique String.le); try apply string_sort_sorted.
  by rewrite !string_sort_perm.
Qed.

Section SortIdentifiers.

Variable objects : conversions.

Lemma ToString_identifier h v :
  is_identifier v = true → ToString objects h v = identifier_string v.
Proof. by destruct v. Qed.

Lemma sort_le_identifiers h x y :
  is_identifier x = true → is_identifier y = true →
  sort_le objects h x y
  = String.leb (identifier_string x) (identifier_string y).
Proof. by destruct x, y. Qed.

Lemma sort_insert_identifiers h x l :
  is_identifier x = true → Forall (fun v => is_identifier v = true) l →
  Forall (fun v => is_identifier v = true) (sort_insert objects h x l)
  ∧ map identifier_string (sort_insert objects h x l)
    = string_insert (identifier_string x) (map identifier_string l).
Proof.
  intros Hx. induction 1 as [|y l Hy Hl [IH1 IH2]]; simpl.
  - split; [by repeat constructor|done].
  - rewrite sort_le_identifiers by done.
    destruct (String.leb _ _); simpl.
    + split; [by repeat constructor|done].
    + split; [by constructor|]. by rewrite IH2.
Qed.

Lemma sorted_identifiers h es :
  Forall (fun v => is_identifier v = true) es →
  Forall (fun v => is_identifier v = true) (sorted objects h es)
  ∧ map identifier_string (sorted objects h es)
    = string_sort (map identifier_string es).
Proof.
  induction 1 as [|x es Hx Hes [IH1 IH2]]; simpl; [done|].
  destruct (sort_insert_identifiers h x (sorted objects h es))
    as [H1 H2]; [done..|].
  split; [done|]. by rewrite H2, IH2.
Qed.

Lemma render_identifier h v :
  is_identifier v = true →
  join_item objects h (quote_item objects h v)
  = render_key (identifier_string v).
Proof.
  destruct v as [| | |n|s| | |]; try done; intros _.
  - unfold render_key. cbn [identifier_string].
    by rewrite Number_toString_numeric.
  - unfold quote_item, render_key. cbn [isNaN identifier_string ToString].
    by destruct (StringToNumber_ok s).
Qed.

(** The filter for one field holding an array of identifiers: the
    rendered strings of the identifiers, sorted. *)
Lemma getOdataFilter_identifiers h filterKey l es ps :
  h !! l = Some (HArr es ps) →
  Forall (fun v => is_identifier v = true) es →
  snd (getOdataFilter objects h [(filterKey, VRef l)])
  = "$filter=" +:+ filterKey +:+ " in (" +:+
    String.concat ", "
      (map render_key (string_sort (map identifier_string es))) +:+ ")".
Proof.
  intros Hl Hes.
  destruct (sorted_identifiers h es Hes) as [Hids Hkeys].
  unfold getOdataFilter. cbn [map fst fold_left].
  unfold filter_step. cbn [prop_get]. rewrite String.eqb_refl.
  change (default VUndef (Some (VRef l))) with (VRef l).
  unfold Array_isArray, Array_sort. rewrite Hl. cbn [negb snd].
  rewrite String.eqb_refl. cbn [negb]. unfold Array_join.
  rewrite map_map.
  set (h' := <[l := _]> h).
  assert (map (fun x => join_item objects h'
                          (quote_item objects h' x))
              (sorted objects h es)
          = map render_key (map identifier_string
                              (sorted objects h es))) as ->.
  { rewrite map_map. apply map_ext_Forall.
    eapply Forall_impl; [exact Hids|].
    intros v Hv. by apply render_identifier. }
  by rewrite Hkeys.
Qed.

(** C4, amended. For every field name and every two arrays of
    identifiers (numbers and strings) that are permutations of each
    other, [getOdataFilter] returns the same string: the array is sorted
    before it is rendered. [{Id: [3,1,2]}] and [{Id: [1,2,3]}] both give
    [$filter=Id in (1, 2, 3)]. *)
Theorem getOdataFilter_permutation :
  (∀ filterKey h1 h2 l1 l2 es1 es2 ps1 ps2,
     h1 !! l1 = Some (HArr es1 ps1) →
     h2 !! l2 = Some (HArr es2 ps2) →
     Forall (fun v => is_identifier v = true) es1 →
     es1 ≡ₚ es2 →
     snd (getOdataFilter objects h1 [(filterKey, VRef l1)])
     = snd (getOdataFilter objects h2 [(filterKey, VRef l2)]))
  ∧ snd (getOdataFilter objects
           {[ 0%nat := HArr [VNum 3; VNum 1; VNum 2] [] ]} [("Id", VRef 0%nat)])
    = "$filter=Id in (1, 2, 3)"
  ∧ snd (getOdataFilter objects
           {[ 0%nat := HArr [VNum 1; VNum 2; VNum 3] [] ]} [("Id", VRef 0%nat)])
    = "$filter=Id in (1, 2, 3)".
Proof.
  split_and!; [|done..].
  intros filterKey h1 h2 l1 l2 es1 es2 ps1 ps2 H1 H2 Hes Hperm.
  assert (Hes2 : Forall (fun v => is_identifier v = true) es2).
  { by rewrite <- Hperm. }
  rewrite (getOdataFilter_identifiers h1 filterKey l1 es1 ps1) by done.
  rewrite (getOdataFilter_identifiers h2 filterKey l2 es2 ps2) by done.
  rewrite (string_sort_permutation (map identifier_string es1)
             (map identifier_string es2)); [done|].
  by apply Permutation_map.
Qed.

End SortIdentifiers.

(** C4, as stated, fails where two values have the same string and are
    rendered differently: [true] and ['true'] compare equal in [sort],
    which keeps them in the order they came in; [isNaN(true)] is false,
    [isNaN('true')] is true. *)
Lemma getOdataFilter_permutation_counterexample :
  [VBool true; VStr "true"] ≡ₚ [VStr "true"; VBool true]
  ∧ snd (getOdataFilter plain_object
           {[ 0%nat := HArr [VBool true; VStr "true"] [] ]} [("F", VRef 0%nat)])
    = "$filter=F in (true, 'true')"
  ∧ snd (getOdataFilter plain_object
           {[ 0%nat := HArr [VStr "true"; VBool true] [] ]} [("F", VRef 0%nat)])
    = "$filter=F in ('true', true)"
  ∧ snd (getOdataFilter plain_object
           {[ 0%nat := HArr [VBool true; VStr "true"] [] ]} [("F", VRef 0%nat)])
    ≠ snd (getOdataFilter plain_object
             {[ 0%nat := HArr [VStr "true"; VBool true] [] ]} [("F", VRef 0%nat)]).
Proof.
  split_and!; [apply Permutation_swap|done|done|].
  intros H. vm_compute in H. discriminate H.
Qed.

(** ** Running synchronous code *)

Lemma keeps_sent_ret {A} (a : A) : keeps_sent (ret a).
Proof. by intros w. Qed.

Lemma keeps_sent_bind {A B} (c : M A) (k : A → M B) :
  keeps_sent c → (∀ a, keeps_sent (k a)) → keeps_sent (bind c k).
Proof.
  intros Hc Hk w. unfold bind. specialize (Hc w).
  destruct (c w) as [w' [a|e]]; simpl in *; [|done].
  by rewrite Hk.
Qed.

Lemma keeps_sent_reading {A} (f : heap → option A) : keeps_sent (reading f).
Proof. intros w. unfold reading. by destruct (f (store w)). Qed.

Lemma keeps_sent_writing f : keeps_sent (writing f).
Proof. intros w. unfold writing. by destruct (f (store w)). Qed.

Lemma keeps_sent_alloc o : keeps_sent (alloc o).
Proof. by intros w. Qed.

Lemma keeps_sent_mapM {A B} (f : A → M B) l :
  (∀ a, keeps_sent (f a)) → keeps_sent (mapM f l).
Proof.
  intros Hf. induction l as [|x l IH]; simpl.
  - apply keeps_sent_ret.
  - apply keeps_sent_bind; [done|]. intros y.
    apply keeps_sent_bind; [done|]. intros ys. apply keeps_sent_ret.
Qed.

Lemma keeps_sent_idFuncSingle v : keeps_sent (idFuncSingle v).
Proof.
  unfold idFuncSingle.
  apply keeps_sent_bind; [apply keeps_sent_reading|]. intros Id.
  apply keeps_sent_bind; [apply keeps_sent_writing|]. intros _.
  apply keeps_sent_ret.
Qed.

Lemma keeps_sent_idFunc v : keeps_sent (idFunc v).
Proof.
  unfold idFunc. apply keeps_sent_bind; [done|]. intros h.
  destruct (Array_isArray h v); [|apply keeps_sent_idFuncSingle].
  apply keeps_sent_bind; [apply keeps_sent_reading|]. intros items.
  apply keeps_sent_bind; [|intros; apply keeps_sent_alloc].
  apply keeps_sent_mapM. intros; apply keeps_sent_idFuncSingle.
Qed.

Lemma keeps_sent_echo v :
  keeps_sent (data' <- idFunc v ;; ret {| data := data'; total := None |}).
Proof.
  apply keeps_sent_bind; [apply keeps_sent_idFunc|].
  intros; apply keeps_sent_ret.
Qed.

Lemma Array_elems_array w l es ps :
  store w !! l = Some (HArr es ps) → Array_elems (VRef l) w = (w, Return es).
Proof. intros H. unfold Array_elems, reading. by rewrite H. Qed.

Lemma then_rejected {A B} (p : promise A) (cb : A → M B) e w :
  outcome p = Rejected e →
  then_ p cb w
  = (w, Return {| settles_at := settles_at p; outcome := Rejected e |}).
Proof. intros H. unfold then_. by rewrite H. Qed.

Lemma then_sent {A B} (p : promise A) (cb : A → M B) w :
  (∀ a, keeps_sent (cb a)) → sent (fst (then_ p cb w)) = sent w.
Proof.
  intros Hcb. unfold then_. destruct (outcome p) as [a|e]; [|done].
  specialize (Hcb a w). by destruct (cb a w) as [w' [b|e]].
Qed.

Lemma then_returns {A B} (p : promise A) (cb : A → M B) w :
  ∃ q, snd (then_ p cb w) = Return q ∧ settles_at q = settles_at p.
Proof.
  unfold then_. destruct (outcome p) as [a|e]; [|by eexists].
  destruct (cb a w) as [w' [b|e]]; by eexists.
Qed.

(** ** [Promise.all] *)

Lemma first_rejection_none {A} (ps : list (promise A)) :
  Forall (fun p => ∃ a, outcome p = Fulfilled a) ps →
  first_rejection ps = None.
Proof.
  induction 1 as [|p ps [a Ha] _ IH]; simpl; [done|]. by rewrite Ha.
Qed.

Lemma first_rejection_some {A} (ps : list (promise A)) :
  Exists (fun p => ∃ e, outcome p = Rejected e) ps →
  ∃ q, q ∈ ps ∧
       first_rejection ps
       = Some (settles_at q,
               match outcome q with Rejected e => e | _ => TypeError end)
       ∧ ∃ e, outcome q = Rejected e.
Proof.
  induction ps as [|p ps IH]; intros Hex; [by apply Exists_nil in Hex|].
  simpl. destruct (outcome p) as [a|e] eqn:Hp.
  - apply Exists_cons in Hex as [[e He]|Hex]; [congruence|].
    destruct (IH Hex) as (q & Hq & Hfirst & Hrej).
    exists q. split_and!; [by right|done|done].
  - destruct (first_rejection ps) as [[t e']|] eqn:Hfirst.
    + destruct (settles_at p <=? t)%nat.
      * exists p. rewrite Hp. split_and!; [by left|done|by eexists].
      * assert (Hex' : Exists (fun p => ∃ e, outcome p = Rejected e) ps).
        { apply Exists_exists. clear -Hfirst.
          induction ps as [|p ps IH]; [done|]. simpl in Hfirst.
          destruct (outcome p) as [a|e] eqn:Hp.
          - destruct (IH Hfirst) as (q & Hq & Hrej). exists q.
            split; [by right|done].
          - exists p. split; [by left|by eexists]. }
        destruct (IH Hex') as (q & Hq & Hfirst' & Hrej).
        exists q. split_and!; [by right|done|done].
    + exists p. rewrite Hp. split_and!; [by left|done|by eexists].
Qed.

Lemma Promise_all_fulfilled {A} (ps : list (promise A)) :
  Forall (fun p => ∃ a, outcome p = Fulfilled a) ps →
  outcome (Promise_all ps) = Fulfilled (fulfilled_values ps).
Proof.
  intros H. unfold Promise_all. by rewrite first_rejection_none.
Qed.

(** One rejection rejects the whole, with the reason of a rejected
    promise. *)
Lemma Promise_all_rejected {A} (ps : list (promise A)) :
  Exists (fun p => ∃ e, outcome p = Rejected e) ps →
  ∃ q e, q ∈ ps ∧ outcome q = Rejected e
         ∧ outcome (Promise_all ps) = Rejected e.
Proof.
  intros H. destruct (first_rejection_some ps H) as (q & Hq & Hfirst & e & He).
  exists q, e. split_and!; [done..|].
  unfold Promise_all. rewrite Hfirst. by rewrite He.
Qed.

(** ** The handlers *)

Section HandlerProperties.

Variable apiUrl : string.
Variable httpClient : list request -> request -> promise response.
Variable JSON_stringify : heap -> value -> option string.
Variable stringify : heap -> props -> string.
Variable flattenObject : heap -> value -> props.
Variable objects : conversions.

Lemma replies_length reqs : ∀ hist, length (replies httpClient hist reqs) = length reqs.
Proof. induction reqs as [|r reqs IH]; intros hist; simpl; [done|]. by rewrite IH. Qed.

(** [ids.map(id => httpClient(...))]: every request goes out, whatever
    the transport answers. *)
Lemma fan_out (mk : heap → value → request) ids : ∀ w,
  mapM (fun id => h <- get_store ;; fetch httpClient (mk h id)) ids w
  = ({| store := store w; sent := sent w ++ map (mk (store w)) ids |},
     Return (replies httpClient (sent w) (map (mk (store w)) ids))).
Proof.
  induction ids as [|id ids IH]; intros w.
  - simpl. unfold ret. rewrite app_nil_r. by destruct w.
  - cbn [mapM map replies]. unfold bind at 1. unfold bind at 1.
    unfold get_store at 1, fetch at 1. cbn [store sent].
    unfold bind at 1. rewrite IH. cbn [store sent]. unfold ret.
    by rewrite <- app_assoc.
Qed.

Lemma read_Ids ps : ∀ Ids w,
  Forall2 (fun p Id => ∃ r, outcome p = Fulfilled r
                            ∧ Get (store w) (json r) "Id" = Some Id) ps Ids →
  Forall (fun p : promise response => ∃ a, outcome p = Fulfilled a) ps
  ∧ mapM (fun r => reading (fun h => Get h (json r) "Id"))
         (fulfilled_values ps) w
    = (w, Return Ids).
Proof.
  induction ps as [|p ps IH]; intros Ids w H.
  - apply Forall2_nil_inv_l in H as ->. by split.
  - apply Forall2_cons_inv_l in H as (Id & Ids' & (r & Hr & HId) & H & ->).
    destruct (IH Ids' w H) as [Hall Hrun]. split.
    + constructor; [by eexists|done].
    + cbn [fulfilled_values]. rewrite Hr. cbn [mapM].
      unfold bind at 1. unfold reading at 1. rewrite HId.
      unfold bind at 1. rewrite Hrun. done.
Qed.

Lemma Get_nullish h v k : is_nullish v = true → Get h v k = None.
Proof. by destruct v. Qed.

Lemma mapM_reading_throws {A B} (f : A → heap → option B) rs w :
  Exists (fun r => f r (store w) = None) rs →
  mapM (fun r => reading (fun h => f r h)) rs w = (w, Throw TypeError).
Proof.
  induction rs as [|r rs IH]; intros Hex; [by apply Exists_nil in Hex|].
  cbn [mapM]. unfold bind at 1. unfold reading at 1.
  destruct (f r (store w)) as [b|] eqn:Hr; [|done].
  apply Exists_cons in Hex as [Hex|Hex]; [congruence|].
  unfold bind at 1. by rewrite IH.
Qed.

Lemma fulfilled_values_Exists {A} (P : A → Prop) (ps : list (promise A)) :
  Exists (fun p => ∃ a, outcome p = Fulfilled a ∧ P a) ps →
  Exists P (fulfilled_values ps).
Proof.
  induction ps as [|p ps IH]; intros Hex; [by apply Exists_nil in Hex|].
  cbn [fulfilled_values].
  apply Exists_cons in Hex as [(a & Ha & HP)|Hex].
  - rewrite Ha. by left.
  - destruct (outcome p); [right|]; by apply IH.
Qed.

(** C8. For every [updateMany] call on an array of N ids, N PUT requests
    go out, one per id and in the order of the ids, each with the same
    body [JSON.stringify(params.data)], whatever the answers are. When
    every one of them is answered with a body whose [Id] can be read,
    the call resolves with a new array holding the [Id] of each answer,
    in the order of the ids. When all of them succeed and one is
    answered without a body ([json] is [undefined] or [null]), which is
    what [update] expects of a PUT, the call does not resolve: reading
    [json.Id] throws, and the call is rejected with a [TypeError]. *)
Theorem updateMany_puts_each_id :
  ∀ resource lids data w es ps,
    store w !! lids = Some (HArr es ps) →
    let reqs :=
      map (fun id =>
             {| url := apiUrl +:+ "/" +:+ resource +:+ "/" +:+
                       ToString objects (store w) id;
                method := Some "PUT";
                body := JSON_stringify (store w) data |}) es in
    (length reqs = length es
     ∧ ∃ w' p,
         updateMany apiUrl httpClient JSON_stringify objects
           resource (VRef lids) data w = (w', Return p)
         ∧ sent w' = sent w ++ reqs)
    ∧ (∀ Ids,
         Forall2 (fun p Id => ∃ r, outcome p = Fulfilled r
                                   ∧ Get (store w) (json r) "Id" = Some Id)
                 (replies httpClient (sent w) reqs) Ids →
         ∃ lnew t,
           store w !! lnew = None
           ∧ updateMany apiUrl httpClient JSON_stringify objects
               resource (VRef lids) data w
             = ({| store := <[lnew := HArr Ids []]> (store w);
                   sent := sent w ++ reqs |},
                Return {| settles_at := t;
                          outcome := Fulfilled {| data := VRef lnew;
                                                  total := None |} |})
           ∧ length Ids = length es)
    ∧ (Forall (fun p => ∃ r, outcome p = Fulfilled r)
              (replies httpClient (sent w) reqs) →
       Exists (fun p => ∃ r, outcome p = Fulfilled r
                             ∧ is_nullish (json r) = true)
              (replies httpClient (sent w) reqs) →
       ∃ t,
         updateMany apiUrl httpClient JSON_stringify objects
           resource (VRef lids) data w
         = ({| store := store w; sent := sent w ++ reqs |},
            Return {| settles_at := t; outcome := Rejected TypeError |})).
Proof.
  intros resource lids data w es ps Hl reqs.
  set (w1 := {| store := store w; sent := sent w ++ reqs |}).
  assert (Hrun : updateMany apiUrl httpClient JSON_stringify objects
                   resource (VRef lids) data w
                 = then_ (Promise_all (replies httpClient (sent w) reqs))
                     (fun responses =>
                        Ids <- mapM (fun r =>
                                 reading (fun h => Get h (json r) "Id"))
                                 responses ;;
                        data' <- alloc (HArr Ids []) ;;
                        ret {| data := data'; total := None |}) w1).
  { unfold updateMany. unfold bind at 1.
    rewrite (Array_elems_array w lids es ps Hl). unfold bind at 1.
    by rewrite (fan_out (fun h id =>
      {| url := apiUrl +:+ "/" +:+ resource +:+ "/" +:+
                ToString objects h id;
         method := Some "PUT"; body := JSON_stringify h data |})). }
  split_and!.
  - unfold reqs. by rewrite length_map.
  - rewrite Hrun.
    match goal with |- context [then_ ?q ?cb w1] =>
      pose proof (then_returns q cb w1) as (p & Hp & _);
      pose proof (then_sent q cb w1) as Hsent;
      destruct (then_ q cb w1) as [w' c]
    end.
    cbn [fst snd] in *. subst c. exists w', p. split; [done|].
    apply Hsent. intros responses.
    apply keeps_sent_bind;
      [apply keeps_sent_mapM; intros r; apply keeps_sent_reading|].
    intros Ids. apply keeps_sent_bind; [apply keeps_sent_alloc|].
    intros data'. apply keeps_sent_ret.
  - intros Ids HIds.
    destruct (read_Ids _ Ids w1 HIds) as [Hall Hread].
    exists (fresh (dom (store w))),
           (settles_at (Promise_all (replies httpClient (sent w) reqs))).
    split_and!.
    + apply not_elem_of_dom. apply is_fresh.
    + rewrite Hrun. unfold then_.
      rewrite (Promise_all_fulfilled _ Hall).
      unfold bind at 1. rewrite Hread. unfold bind, alloc, ret. done.
    + apply Forall2_length in HIds. rewrite <- HIds, replies_length.
      unfold reqs. by rewrite length_map.
  - intros Hall Hex.
    exists (settles_at (Promise_all (replies httpClient (sent w) reqs))).
    rewrite Hrun. unfold then_. rewrite (Promise_all_fulfilled _ Hall).
    unfold bind at 1.
    rewrite (mapM_reading_throws (fun r h => Get h (json r) "Id")); [done|].
    apply fulfilled_values_Exists.
    eapply Exists_impl; [exact Hex|].
    intros p (r & Hr & Hnull). exists r. split; [done|].
    by apply Get_nullish.
Qed.

(** [idFunc] on an array that starts with a primitive: [idFuncSingle]
    throws on it and nothing is written. *)
Lemma idFunc_identifiers w l v es ps :
  store w !! l = Some (HArr (v :: es) ps) →
  is_identifier v = true →
  idFunc (VRef l) w = (w, Throw TypeError).
Proof.
  intros Hl Hv. unfold idFunc, bind at 1, get_store. cbn [Array_isArray store].
  rewrite Hl. unfold bind at 1. rewrite (Array_elems_array _ _ _ _ Hl).
  unfold bind at 1. cbn [mapM]. unfold bind at 1.
  rewrite idFuncSingle_primitive; [done|]. intros l' ->. done.
Qed.

(** C2, on the code. [deleteMany] on a non-empty array of identifiers
    sends one DELETE request per id, in the order of the ids; when all
    of them succeed, [idFunc(params.ids)] runs [idFuncSingle] on the
    first identifier, the assignment [json.id = json.Id] throws on the
    primitive, and the call is rejected with that [TypeError] instead of
    resolving with the ids. *)
Theorem deleteMany_rejects_identifiers :
  ∀ resource lids w v es ps,
    store w !! lids = Some (HArr (v :: es) ps) →
    is_identifier v = true →
    let reqs :=
      map (fun id =>
             {| url := apiUrl +:+ "/" +:+ resource +:+ "/" +:+
                       ToString objects (store w) id;
                method := Some "DELETE";
                body := None |}) (v :: es) in
    Forall (fun p => ∃ r, outcome p = Fulfilled r) (replies httpClient (sent w) reqs) →
    ∃ t,
      deleteMany apiUrl httpClient objects resource (VRef lids) w
      = ({| store := store w; sent := sent w ++ reqs |},
         Return {| settles_at := t; outcome := Rejected TypeError |})
      ∧ length reqs = S (length es).
Proof.
  intros resource lids w v es ps Hl Hv reqs Hall.
  exists (settles_at (Promise_all (replies httpClient (sent w) reqs))). split.
  - unfold deleteMany. unfold bind at 1.
    rewrite (Array_elems_array w lids _ ps Hl). unfold bind at 1.
    rewrite (fan_out (fun h id =>
      {| url := apiUrl +:+ "/" +:+ resource +:+ "/" +:+
                ToString objects h id;
         method := Some "DELETE"; body := None |})).
    fold reqs. unfold then_. rewrite (Promise_all_fulfilled _ Hall).
    unfold bind at 1. by rewrite (idFunc_identifiers _ lids v es ps).
  - unfold reqs. by rewrite length_map.
Qed.

(** [update] on a record: the request leaves after [id] is deleted, and
    a fulfilled answer, whatever it holds, puts [id] back from [Id]. *)
Lemma update_record resource id l ps w :
  store w !! l = Some (HObj ps) →
  let h1 := <[l := HObj (prop_del "id" ps)]> (store w) in
  let req := {| url := apiUrl +:+ "/" +:+ resource +:+ "/" +:+
                       ToString objects h1 id;
                method := Some "PUT";
                body := JSON_stringify h1 (VRef l) |} in
  update apiUrl httpClient JSON_stringify objects
    resource id (VRef l) w
  = match outcome (httpClient (sent w) req) with
    | Fulfilled _ =>
        ({| store := <[l := HObj (normalized (prop_del "id" ps))]> (store w);
            sent := sent w ++ [req] |},
         Return {| settles_at := settles_at (httpClient (sent w) req);
                   outcome := Fulfilled {| data := VRef l; total := None |} |})
    | Rejected e =>
        ({| store := h1; sent := sent w ++ [req] |},
         Return {| settles_at := settles_at (httpClient (sent w) req);
                   outcome := Rejected e |})
    end.
Proof.
  intros Hl h1 req. unfold update. unfold bind at 1. unfold writing.
  cbn [Delete]. rewrite Hl. fold h1.
  unfold bind at 1. unfold get_store. cbn [store sent].
  unfold bind at 1. unfold fetch. cbn [store sent]. fold req.
  unfold then_. cbn [outcome settles_at].
  destruct (outcome (httpClient (sent w) req)) as [r|e]; [|done].
  unfold bind at 1. unfold idFunc. unfold bind at 1. unfold get_store.
  cbn [store Array_isArray].
  assert (Hl1 : h1 !! l = Some (HObj (prop_del "id" ps))).
  { unfold h1. by rewrite lookup_insert_eq. }
  rewrite Hl1.
  rewrite (idFuncSingle_record _ l (prop_del "id" ps)) by done.
  cbn [store sent]. unfold ret, h1. by rewrite insert_insert_eq.
Qed.

(** C3, amended. For every [update] call on a record D, the one request
    is a PUT whose body is [JSON.stringify] of D with [id] removed; when
    it succeeds the call resolves with D itself, whatever the answer
    holds: D without its old [id] and with [id] set anew to the value of
    its [Id] ([undefined] when D has none). *)
Theorem update_sends_without_id :
  ∀ resource id l ps w r,
    store w !! l = Some (HObj ps) →
    let h1 := <[l := HObj (prop_del "id" ps)]> (store w) in
    let req := {| url := apiUrl +:+ "/" +:+ resource +:+ "/" +:+
                         ToString objects h1 id;
                  method := Some "PUT";
                  body := JSON_stringify h1 (VRef l) |} in
    outcome (httpClient (sent w) req) = Fulfilled r →
    ∃ t ps',
      update apiUrl httpClient JSON_stringify objects
        resource id (VRef l) w
      = ({| store := <[l := HObj ps']> (store w); sent := sent w ++ [req] |},
         Return {| settles_at := t;
                   outcome := Fulfilled {| data := VRef l; total := None |} |})
      ∧ h1 !! l = Some (HObj (prop_del "id" ps))
      ∧ prop_get "id" (prop_del "id" ps) = None
      ∧ (∀ k, k ≠ "id" → prop_get k (prop_del "id" ps) = prop_get k ps)
      ∧ prop_get "id" ps' = Some (default VUndef (prop_get "Id" ps))
      ∧ (∀ k, k ≠ "id" → prop_get k ps' = prop_get k ps).
Proof.
  intros resource id l ps w r Hl h1 req Hr.
  exists (settles_at (httpClient (sent w) req)),
         (normalized (prop_del "id" ps)).
  split_and!.
  - rewrite (update_record resource id l ps w Hl). fold h1 req.
    by rewrite Hr.
  - unfold h1. by rewrite lookup_insert_eq.
  - apply prop_get_del_eq.
  - intros k Hk. by apply prop_get_del_ne.
  - unfold normalized. rewrite prop_get_set_eq.
    by rewrite prop_get_del_ne.
  - intros k Hk. rewrite normalized_other by done. by apply prop_get_del_ne.
Qed.

(** C10. For every [update] call on a record, [id] is deleted from the
    caller's object before the request is built and sent; when the
    request is rejected the call is rejected with the same reason and
    the object stays without [id]. *)
Theorem update_deletes_id_in_place :
  ∀ resource id l ps w e,
    store w !! l = Some (HObj ps) →
    let h1 := <[l := HObj (prop_del "id" ps)]> (store w) in
    let req := {| url := apiUrl +:+ "/" +:+ resource +:+ "/" +:+
                         ToString objects h1 id;
                  method := Some "PUT";
                  body := JSON_stringify h1 (VRef l) |} in
    outcome (httpClient (sent w) req) = Rejected e →
    ∃ t w',
      update apiUrl httpClient JSON_stringify objects
        resource id (VRef l) w
      = (w', Return {| settles_at := t; outcome := Rejected e |})
      ∧ sent w' = sent w ++ [req]
      ∧ store w' !! l = Some (HObj (prop_del "id" ps))
      ∧ prop_get "id" (prop_del "id" ps) = None
      ∧ Get (store w') (VRef l) "id" = Some VUndef
      ∧ (∀ l', l' ≠ l → store w' !! l' = store w !! l').
Proof.
  intros resource id l ps w e Hl h1 req He.
  exists (settles_at (httpClient (sent w) req)),
         {| store := h1; sent := sent w ++ [req] |}.
  assert (Hl1 : h1 !! l = Some (HObj (prop_del "id" ps))).
  { unfold h1. by rewrite lookup_insert_eq. }
  split_and!; try done.
  - rewrite (update_record resource id l ps w Hl). fold h1 req.
    by rewrite He.
  - apply prop_get_del_eq.
  - cbn [Get store]. rewrite Hl1. by rewrite prop_get_del_eq.
  - intros l' Hne. cbn [store]. unfold h1. by rewrite lookup_insert_ne.
Qed.

Lemma keeps_sent_envelope_result r : keeps_sent (envelope_result r).
Proof.
  unfold envelope_result.
  apply keeps_sent_bind; [apply keeps_sent_reading|]. intros v.
  apply keeps_sent_bind; [apply keeps_sent_idFunc|]. intros d.
  apply keeps_sent_bind; [apply keeps_sent_reading|]. intros t.
  apply keeps_sent_ret.
Qed.

(** A request and the callback on its answer: one request goes out, and
    a rejection passes through as it is. *)
Lemma fetch_then (req : request) (cb : response → M result) w :
  (∀ r, keeps_sent (cb r)) →
  ∃ w' p,
    (q <- fetch httpClient req ;; then_ q cb) w = (w', Return p)
    ∧ sent w' = sent w ++ [req]
    ∧ settles_at p = settles_at (httpClient (sent w) req)
    ∧ ∀ e, outcome (httpClient (sent w) req) = Rejected e →
           outcome p = Rejected e ∧ store w' = store w.
Proof.
  intros Hcb. unfold bind at 1. unfold fetch.
  set (w1 := {| store := store w; sent := sent w ++ [req] |}).
  set (q := httpClient (sent w) req).
  pose proof (then_sent q cb w1 Hcb) as Hsent.
  destruct (then_returns q cb w1) as (p & Hp & Ht).
  destruct (then_ q cb w1) as [w' c] eqn:Hrun. cbn [fst snd] in *. subst c.
  exists w', p. split_and!; [done..|].
  intros e He. rewrite (then_rejected q cb e w1 He) in Hrun.
  by injection Hrun as <- <-.
Qed.

Lemma Number_of_Z_exact z : Z.abs z < 2 ^ 53 → Number_of_Z z = Finite z.
Proof.
  intros Hz. unfold Number_of_Z, double_round.
  apply Z.ltb_lt in Hz as Hz'. rewrite Hz'.
  assert (H : Z.abs z < 2 ^ 1024).
  { eapply Z.lt_trans; [exact Hz|]. apply Z.pow_lt_mono_r; lia. }
  apply Z.ltb_lt in H. by rewrite H.
Qed.

Lemma Number_of_Z_page z : Z.abs (z - 1) < 2 ^ 53 → Number_of_Z z = Finite z.
Proof.
  intros Hz. destruct (Z.eq_dec z (2 ^ 53)) as [->|Hne]; [by vm_compute|].
  apply Number_of_Z_exact.
  change (2 ^ 53) with 9007199254740992 in *. lia.
Qed.

Lemma perPage_bound pg pp :
  Z.abs ((pg - 1) * pp) < 2 ^ 53 → Z.abs (pg * pp) < 2 ^ 53 →
  Z.abs pp < 2 ^ 53.
Proof.
  intros Hstart Hend. destruct (Z.eq_dec pg 0) as [->|Hpg].
  - replace ((0 - 1) * pp) with (- pp) in Hstart by lia.
    by rewrite Z.abs_opp in Hstart.
  - rewrite Z.abs_mul in Hend. eapply Z.le_lt_trans; [|exact Hend].
    pose proof (Z.abs_nonneg pp). assert (1 ≤ Z.abs pg) by lia. nia.
Qed.

Lemma getList_query_get h pagination sort filter k :
  prop_get k (getList_query flattenObject h pagination sort filter)
  = if String.eqb k "_end"
    then Some (Number_value
                 (Number_mul (Number_of_Z (page pagination))
                    (Number_of_Z (perPage pagination))))
    else if String.eqb k "_start"
    then Some (Number_value
                 (Number_mul
                    (Number_sub (Number_of_Z (page pagination)) (Finite 1))
                    (Number_of_Z (perPage pagination))))
    else if String.eqb k "_order" then Some (VStr (order sort))
    else if String.eqb k "_sort" then Some (VStr (field sort))
    else prop_get k (flattenObject h filter).
Proof.
  destruct pagination as [pg pp], sort as [fd od].
  unfold getList_query. cbn [page perPage field order]. cbv zeta.
  destruct (String.eqb_spec k "_end") as [->|H1];
    [by rewrite prop_get_set_eq|rewrite prop_get_set_ne by done].
  destruct (String.eqb_spec k "_start") as [->|H2];
    [by rewrite prop_get_set_eq|rewrite prop_get_set_ne by done].
  destruct (String.eqb_spec k "_order") as [->|H3];
    [by rewrite prop_get_set_eq|rewrite prop_get_set_ne by done].
  destruct (String.eqb_spec k "_sort") as [->|H4];
    [by rewrite prop_get_set_eq|by rewrite prop_get_set_ne].
Qed.

(** C6, amended. For every [getList] call the object [query] holds
    [_sort] = field, [_order] = order, [_start] = (page - 1) * perPage
    and [_end] = page * perPage, the two computed in the arithmetic of
    doubles, and under every other key what the flattened filter holds
    there, nothing else: an entry of the filter under one of the four
    keys is overridden. Where page - 1 and the two products are below
    2^53 in size, [_start] and [_end] are the exact products. The one
    request is a GET of [apiUrl/resource?stringify(query)]. Page 2 with
    10 per page, sorted by title ASC, gives [_sort] = title, [_order] =
    ASC, [_start] = 10 and [_end] = 20. *)
Theorem getList_query_parameters :
  (∀ h pagination sort filter k,
     prop_get k (getList_query flattenObject h pagination sort filter)
     = if String.eqb k "_end"
       then Some (Number_value
                    (Number_mul (Number_of_Z (page pagination))
                       (Number_of_Z (perPage pagination))))
       else if String.eqb k "_start"
       then Some (Number_value
                    (Number_mul
                       (Number_sub (Number_of_Z (page pagination))
                          (Finite 1))
                       (Number_of_Z (perPage pagination))))
       else if String.eqb k "_order" then Some (VStr (order sort))
       else if String.eqb k "_sort" then Some (VStr (field sort))
       else prop_get k (flattenObject h filter))
  ∧ (∀ h pagination sort filter,
       Z.abs (page pagination - 1) < 2 ^ 53 →
       Z.abs ((page pagination - 1) * perPage pagination) < 2 ^ 53 →
       Z.abs (page pagination * perPage pagination) < 2 ^ 53 →
       let query := getList_query flattenObject h pagination sort filter in
       prop_get "_start" query
       = Some (VNum ((page pagination - 1) * perPage pagination))
       ∧ prop_get "_end" query
         = Some (VNum (page pagination * perPage pagination)))
  ∧ (∀ resource pagination sort filter w,
     ∃ w' p,
       getList apiUrl httpClient stringify flattenObject
         resource pagination sort filter w = (w', Return p)
       ∧ sent w'
         = sent w ++
           [{| url := apiUrl +:+ "/" +:+ resource +:+ "?" +:+
                      stringify (store w)
                        (getList_query flattenObject (store w)
                           pagination sort filter);
               method := None; body := None |}])
  ∧ (∀ h filter,
     let query := getList_query flattenObject h
                    {| page := 2; perPage := 10 |}
                    {| field := "title"; order := "ASC" |} filter in
     prop_get "_sort" query = Some (VStr "title")
     ∧ prop_get "_order" query = Some (VStr "ASC")
     ∧ prop_get "_start" query = Some (VNum 10)
     ∧ prop_get "_end" query = Some (VNum 20)).
Proof.
  split_and!.
  - apply getList_query_get.
  - intros h pagination sort filter Hsub Hstart Hend query. unfold query.
    rewrite !getList_query_get. cbn [String.eqb Ascii.eqb Bool.eqb].
    rewrite (Number_of_Z_page _ Hsub).
    rewrite (Number_of_Z_exact _ (perPage_bound _ _ Hstart Hend)).
    cbn [Number_sub Number_mul]. rewrite (Number_of_Z_exact _ Hsub).
    cbn [Number_mul].
    by rewrite (Number_of_Z_exact _ Hstart), (Number_of_Z_exact _ Hend).
  - intros resource pagination sort filter w.
    unfold getList. unfold bind at 1. unfold get_store.
    destruct (fetch_then
      {| url := apiUrl +:+ "/" +:+ resource +:+ "?" +:+
                stringify (store w)
                  (getList_query flattenObject (store w)
                     pagination sort filter);
         method := None; body := None |}
      envelope_result w keeps_sent_envelope_result)
      as (w' & p & Hrun & Hsent & _).
    exists w', p. by split.
  - intros h filter query. unfold query. by rewrite !getList_query_get.
Qed.

(** C7. For every [getList] call answered with an envelope
    [{value: records}], the call resolves with [data], a new array of
    the records, each normalised, and with [total], the length of the
    array [value] of this answer. *)
Theorem getList_total_is_page_length :
  ∀ resource pagination sort filter w r lj eps la ls aps,
    let req :=
      {| url := apiUrl +:+ "/" +:+ resource +:+ "?" +:+
                stringify (store w)
                  (getList_query flattenObject (store w)
                     pagination sort filter);
         method := None; body := None |} in
    outcome (httpClient (sent w) req) = Fulfilled r →
    json r = VRef lj →
    store w !! lj = Some (HObj eps) →
    prop_get "value" eps = Some (VRef la) →
    store w !! la = Some (HArr (map VRef ls) aps) →
    (∀ l, l ∈ ls → ∃ ps, store w !! l = Some (HObj ps)) →
    ∃ t h' lnew,
      getList apiUrl httpClient stringify flattenObject
        resource pagination sort filter w
      = ({| store := h'; sent := sent w ++ [req] |},
         Return {| settles_at := t;
                   outcome :=
                     Fulfilled
                       {| data := VRef lnew;
                          total := Some (VNum (Z.of_nat (length ls))) |} |})
      ∧ store w !! lnew = None
      ∧ h' !! lnew = Some (HArr (map VRef ls) [])
      ∧ ∀ l ps, l ∈ ls → store w !! l = Some (HObj ps) →
                h' !! l = Some (HObj (normalized ps)).
Proof.
  intros resource pagination sort filter w r lj eps la ls aps req
    Hr Hjson Hlj Hvalue Hla Hrec.
  set (w1 := {| store := store w; sent := sent w ++ [req] |}).
  destruct (idFunc_records w1 la ls aps Hla Hrec)
    as (h' & lnew & Hrun & Hnew & Harr & Hframe & Hnorm).
  exists (settles_at (httpClient (sent w) req)), h', lnew.
  split_and!; try done.
  unfold getList. unfold bind at 1. unfold get_store. fold req.
  unfold bind at 1. unfold fetch. fold w1.
  unfold then_. rewrite Hr. unfold envelope_result.
  unfold bind at 1. unfold reading at 1. rewrite Hjson.
  cbn [Get]. change (store w1) with (store w).
  rewrite Hlj, Hvalue. change (default VUndef (Some (VRef la))) with (VRef la).
  unfold bind at 1. rewrite Hrun.
  unfold bind at 1. unfold reading at 1. cbn [Get store].
  assert (Hla' : h' !! la = Some (HArr (map VRef ls) aps)).
  { change (store w1) with (store w) in *. rewrite Hframe; [done| |].
    - intros Hin. destruct (Hrec la Hin) as [ps Hps]. congruence.
    - intros <-. congruence. }
  rewrite Hla'. rewrite String.eqb_refl. unfold ret. by rewrite length_map.
Qed.

(** *** Rejections *)

Lemma passes_rejection_fetch req (cb : response → M result) :
  (∀ r, keeps_sent (cb r)) →
  passes_rejection httpClient (q <- fetch httpClient req ;; then_ q cb).
Proof.
  intros Hcb w w' p Hrun.
  destruct (fetch_then req cb w Hcb) as (w'' & p' & Hrun' & Hsent & _ & Hrej).
  rewrite Hrun in Hrun'. injection Hrun' as <- <-.
  exists req. split; [done|]. intros e He. by destruct (Hrej e He).
Qed.

Lemma passes_rejection_bind {X} (pre : M X) (k : X → M (promise result)) :
  keeps_sent pre → (∀ x, passes_rejection httpClient (k x)) →
  passes_rejection httpClient (bind pre k).
Proof.
  intros Hpre Hk w w' p Hrun. unfold bind in Hrun.
  specialize (Hpre w). destruct (pre w) as [w1 [x|e]]; [|done].
  cbn [fst] in Hpre. destruct (Hk x w1 w' p Hrun) as (req & Hsent & Hrej).
  exists req. by rewrite <- Hpre.
Qed.

Lemma keeps_sent_filter filterObj :
  keeps_sent (fun w =>
    let '(h, s) := getOdataFilter objects (store w) filterObj in
    ({| store := h; sent := sent w |}, Return s)).
Proof. intros w. by destruct (getOdataFilter _ _ _). Qed.

Lemma fails_as_a_whole_fan_out ids (mk : heap → value → request)
    (cb : list response → M result) :
  (∀ rs, keeps_sent (cb rs)) →
  fails_as_a_whole httpClient ids
    (ids' <- Array_elems ids ;;
     ps <- mapM (fun id => h <- get_store ;; fetch httpClient (mk h id)) ids' ;;
     then_ (Promise_all ps) cb).
Proof.
  intros Hcb w w' p Hrun. unfold bind at 1 in Hrun.
  destruct (Array_elems ids w) as [w0 [es|e]] eqn:Hes; [|done].
  assert (w0 = w) as ->.
  { unfold Array_elems, reading in Hes.
    destruct (match ids with VRef _ => _ | _ => _ end); by injection Hes. }
  unfold bind at 1 in Hrun. rewrite fan_out in Hrun.
  set (reqs := map (mk (store w)) es) in *.
  set (w1 := {| store := store w; sent := sent w ++ reqs |}) in *.
  exists es, reqs. split_and!.
  - done.
  - unfold reqs. by rewrite length_map.
  - pose proof (then_sent (Promise_all (replies httpClient (sent w) reqs)) cb w1 Hcb) as H.
    rewrite Hrun in H. done.
  - intros Hex. destruct (Promise_all_rejected _ Hex) as (q & e & Hq & He & Hall).
    exists q, e. split_and!; [done..|].
    rewrite (then_rejected _ cb e w1 Hall) in Hrun. by injection Hrun as <- <-.
Qed.

(** C9. Each of the nine handlers hands its requests to the transport
    once: the seven single-request handlers send one request and are
    rejected with the transport's own reason when it is rejected;
    [updateMany] and [deleteMany] send one request per id and are
    rejected as a whole, with the reason of a rejected request, as soon
    as any of the requests is rejected. *)
Theorem rejections_propagate :
  (∀ resource pagination sort filter,
     passes_rejection httpClient
       (getList apiUrl httpClient stringify flattenObject
          resource pagination sort filter))
  ∧ (∀ resource id,
       passes_rejection httpClient (getOne apiUrl httpClient objects resource id))
  ∧ (∀ resource ids,
       passes_rejection httpClient (getMany apiUrl httpClient objects resource ids))
  ∧ (∀ resource target id,
       passes_rejection httpClient
         (getManyReference apiUrl httpClient objects
            resource target id))
  ∧ (∀ resource id data,
       passes_rejection httpClient
         (update apiUrl httpClient JSON_stringify objects
            resource id data))
  ∧ (∀ resource data,
       passes_rejection httpClient (create apiUrl httpClient JSON_stringify resource data))
  ∧ (∀ resource params,
       passes_rejection httpClient
         (delete_ apiUrl httpClient objects resource params))
  ∧ (∀ resource ids data,
       fails_as_a_whole httpClient ids
         (updateMany apiUrl httpClient JSON_stringify objects
            resource ids data))
  ∧ (∀ resource ids,
       fails_as_a_whole httpClient ids
         (deleteMany apiUrl httpClient objects resource ids)).
Proof.
  split_and!.
  - intros. unfold getList.
    apply passes_rejection_bind; [done|]. intros h.
    apply passes_rejection_fetch, keeps_sent_envelope_result.
  - intros. unfold getOne.
    apply passes_rejection_bind; [done|]. intros h.
    apply passes_rejection_fetch. intros r. apply keeps_sent_echo.
  - intros. unfold getMany.
    apply passes_rejection_bind; [apply keeps_sent_filter|]. intros s.
    apply passes_rejection_fetch. intros r.
    apply keeps_sent_bind; [apply keeps_sent_reading|]. intros v.
    apply keeps_sent_echo.
  - intros. unfold getManyReference.
    apply passes_rejection_bind; [done|]. intros h.
    apply passes_rejection_bind; [apply keeps_sent_filter|]. intros s.
    apply passes_rejection_fetch, keeps_sent_envelope_result.
  - intros. unfold update.
    apply passes_rejection_bind; [apply keeps_sent_writing|]. intros _.
    apply passes_rejection_bind; [done|]. intros h.
    apply passes_rejection_fetch. intros r. apply keeps_sent_echo.
  - intros. unfold create.
    apply passes_rejection_bind; [done|]. intros h.
    apply passes_rejection_fetch. intros r. apply keeps_sent_echo.
  - intros. unfold delete_.
    apply passes_rejection_bind; [apply keeps_sent_reading|]. intros id.
    apply passes_rejection_bind; [done|]. intros h.
    apply passes_rejection_fetch. intros r. apply keeps_sent_echo.
  - intros resource ids d. unfold updateMany.
    apply (fails_as_a_whole_fan_out ids (fun h id =>
      {| url := apiUrl +:+ "/" +:+ resource +:+ "/" +:+
                ToString objects h id;
         method := Some "PUT"; body := JSON_stringify h d |})).
    intros rs. apply keeps_sent_bind.
    + apply keeps_sent_mapM. intros r. apply keeps_sent_reading.
    + intros Ids. apply keeps_sent_bind; [apply keeps_sent_alloc|].
      intros; apply keeps_sent_ret.
  - intros resource ids. unfold deleteMany.
    apply (fails_as_a_whole_fan_out ids (fun h id =>
      {| url := apiUrl +:+ "/" +:+ resource +:+ "/" +:+
                ToString objects h id;
         method := Some "DELETE"; body := None |})).
    intros rs. apply keeps_sent_echo.
Qed.

End HandlerProperties.

(** ** Worked instances of the theorems *)

Lemma idFunc_sets_id_from_Id_witness :
  (∃ ps',
     idFunc (VRef 1%nat) example_world
     = ({| store := <[1%nat := HObj ps']> example_store; sent := [] |},
        Return (VRef 1%nat))
     ∧ prop_get "id" ps' = Some (VNum 8)
     ∧ ∀ k, k ≠ "id" → prop_get k ps' = prop_get k [("Id", VNum 8)])
  ∧ (∃ h' lnew,
       idFunc (VRef 2%nat) example_world
       = ({| store := h'; sent := [] |}, Return (VRef lnew))
       ∧ example_store !! lnew = None
       ∧ h' !! lnew = Some (HArr [VRef 0%nat; VRef 1%nat] [])
       ∧ ∀ l ps v,
           l ∈ [0%nat; 1%nat] → example_store !! l = Some (HObj ps) →
           prop_get "Id" ps = Some v →
           ∃ ps',
             h' !! l = Some (HObj ps')
             ∧ prop_get "id" ps' = Some v
             ∧ ∀ k, k ≠ "id" → prop_get k ps' = prop_get k ps).
Proof.
  split.
  - apply (proj1 idFunc_sets_id_from_Id example_world 1%nat
             [("Id", VNum 8)] (VNum 8)); reflexivity.
  - apply (proj2 idFunc_sets_id_from_Id example_world 2%nat
             [0%nat; 1%nat] []); [reflexivity|].
    intros l Hl. apply list_elem_of_In in Hl. simpl in Hl.
    destruct Hl as [<-|[<-|[]]]; eexists _, _; split; reflexivity.
Defined.

Lemma getOdataFilter_permutation_witness :
  snd (getOdataFilter plain_object
         {[ 0%nat := HArr [VNum 3; VStr "b"; VNum 2] [] ]} [("Id", VRef 0%nat)])
  = snd (getOdataFilter plain_object
           {[ 0%nat := HArr [VStr "b"; VNum 2; VNum 3] [] ]} [("Id", VRef 0%nat)]).
Proof.
  apply (proj1 (getOdataFilter_permutation plain_object) "Id"
           {[ 0%nat := HArr [VNum 3; VStr "b"; VNum 2] [] ]}
           {[ 0%nat := HArr [VStr "b"; VNum 2; VNum 3] [] ]}
           0%nat 0%nat
           [VNum 3; VStr "b"; VNum 2] [VStr "b"; VNum 2; VNum 3] [] []).
  - reflexivity.
  - reflexivity.
  - repeat constructor.
  - etrans; [apply Permutation_swap|]. apply Permutation_skip.
    apply Permutation_swap.
Defined.


Lemma getList_query_parameters_witness :
  let query := getList_query no_filter ∅ {| page := 3; perPage := 25 |}
                 {| field := "title"; order := "ASC" |} VUndef in
  prop_get "_start" query = Some (VNum 50)
  ∧ prop_get "_end" query = Some (VNum 75).
Proof.
  apply (proj1 (proj2 (getList_query_parameters "http://api"
                         (answering (fun _ => VUndef)) no_query no_filter))
           ∅ {| page := 3; perPage := 25 |}
           {| field := "title"; order := "ASC" |} VUndef);
    reflexivity.
Defined.

(** C6, as stated, fails in two ways. A filter [{_sort: 'name'}] has the
    flattened entry [_sort] = name, and the query does not contain it:
    it holds [_sort] = title, the sort field. And page 94906267 with
    94906267 per page sends [_end] = 9007199515875288, the double
    nearest to the product 9007199515875289. *)
Lemma getList_query_counterexample :
  (let h : heap := {[ 0%nat := HObj [("_sort", VStr "name")] ]} in
   let query := getList_query flat_fields h {| page := 2; perPage := 10 |}
                  {| field := "title"; order := "ASC" |} (VRef 0%nat) in
   flat_fields h (VRef 0%nat) = [("_sort", VStr "name")]
   ∧ query = [("_sort", VStr "title"); ("_order", VStr "ASC");
              ("_start", VNum 10); ("_end", VNum 20)]
   ∧ prop_get "_sort" query ≠ Some (VStr "name"))
  ∧ (let query := getList_query no_filter ∅
                    {| page := 94906267; perPage := 94906267 |}
                    {| field := "title"; order := "ASC" |} VUndef in
     prop_get "_end" query = Some (VNum 9007199515875288)
     ∧ 94906267 * 94906267 = 9007199515875289
     ∧ prop_get "_end" query ≠ Some (VNum (94906267 * 94906267))).
Proof.
  split.
  - split_and!; [reflexivity|reflexivity|].
    intros H. vm_compute in H. discriminate H.
  - split_and!; [by vm_compute|reflexivity|].
    intros H. vm_compute in H. discriminate H.
Qed.

Lemma getList_total_is_page_length_witness :
  ∃ t h' lnew,
    getList "http://api" (answering (fun _ => VRef 3%nat)) no_query no_filter
      "posts" {| page := 2; perPage := 10 |}
      {| field := "title"; order := "ASC" |} VUndef example_world
    = ({| store := h';
          sent := [{| url := "http://api/posts?";
                      method := None; body := None |}] |},
       Return {| settles_at := t;
                 outcome := Fulfilled {| data := VRef lnew;
                                         total := Some (VNum 2) |} |})
    ∧ example_store !! lnew = None
    ∧ h' !! lnew = Some (HArr [VRef 0%nat; VRef 1%nat] [])
    ∧ ∀ l ps, l ∈ [0%nat; 1%nat] → example_store !! l = Some (HObj ps) →
              h' !! l = Some (HObj (normalized ps)).
Proof.
  apply (getList_total_is_page_length "http://api"
           (answering (fun _ => VRef 3%nat)) no_query no_filter
           "posts" {| page := 2; perPage := 10 |}
           {| field := "title"; order := "ASC" |} VUndef example_world
           {| json := VRef 3%nat |} 3%nat [("value", VRef 2%nat)] 2%nat
           [0%nat; 1%nat] []); try reflexivity.
  intros l Hl. apply list_elem_of_In in Hl. simpl in Hl.
  destruct Hl as [<-|[<-|[]]]; eexists; reflexivity.
Defined.

Lemma updateMany_puts_each_id_witness :
  (∃ w' p,
     updateMany "http://api" (rejecting_url "http://api/posts/5" TypeError)
       property_names plain_object "posts" (VRef 4%nat) (VRef 0%nat)
       example_world = (w', Return p)
     ∧ sent w' = [{| url := "http://api/posts/4";
                     method := Some "PUT";
                     body := Some "id,Id,title" |};
                  {| url := "http://api/posts/5";
                     method := Some "PUT";
                     body := Some "id,Id,title" |}])
  ∧ (∃ lnew t,
       example_store !! lnew = None
       ∧ updateMany "http://api" (answering (fun _ => VRef 1%nat))
           property_names plain_object "posts" (VRef 4%nat) (VRef 0%nat)
           example_world
         = ({| store := <[lnew := HArr [VNum 8; VNum 8] []]> example_store;
               sent := [{| url := "http://api/posts/4";
                           method := Some "PUT";
                           body := Some "id,Id,title" |};
                        {| url := "http://api/posts/5";
                           method := Some "PUT";
                           body := Some "id,Id,title" |}] |},
            Return {| settles_at := t;
                      outcome := Fulfilled {| data := VRef lnew;
                                              total := None |} |})
       ∧ length [VNum 8; VNum 8] = 2%nat)
  ∧ (∃ t,
       updateMany "http://api" (answering (fun _ => VUndef))
         property_names plain_object "posts" (VRef 4%nat) (VRef 0%nat)
         example_world
       = ({| store := example_store;
             sent := [{| url := "http://api/posts/4";
                         method := Some "PUT";
                         body := Some "id,Id,title" |};
                      {| url := "http://api/posts/5";
                         method := Some "PUT";
                         body := Some "id,Id,title" |}] |},
          Return {| settles_at := t; outcome := Rejected TypeError |})).
Proof.
  split_and!.
  - apply (proj2 (proj1 (updateMany_puts_each_id "http://api"
             (rejecting_url "http://api/posts/5" TypeError)
             property_names plain_object
             "posts" 4%nat (VRef 0%nat) example_world
             [VNum 4; VNum 5] [] eq_refl))).
  - apply (proj1 (proj2 (updateMany_puts_each_id "http://api"
             (answering (fun _ => VRef 1%nat)) property_names plain_object
             "posts" 4%nat (VRef 0%nat) example_world
             [VNum 4; VNum 5] [] eq_refl)) [VNum 8; VNum 8]).
    repeat constructor; eexists; split; reflexivity.
  - apply (proj2 (proj2 (updateMany_puts_each_id "http://api"
             (answering (fun _ => VUndef)) property_names plain_object
             "posts" 4%nat (VRef 0%nat) example_world
             [VNum 4; VNum 5] [] eq_refl))).
    + repeat constructor; eexists; reflexivity.
    + left. eexists. split; reflexivity.
Defined.

Lemma deleteMany_rejects_identifiers_witness :
  ∃ t,
    deleteMany "http://api" (answering (fun _ => VUndef)) plain_object
      "posts" (VRef 4%nat) example_world
    = ({| store := example_store;
          sent := [{| url := "http://api/posts/4";
                      method := Some "DELETE"; body := None |};
                   {| url := "http://api/posts/5";
                      method := Some "DELETE"; body := None |}] |},
       Return {| settles_at := t; outcome := Rejected TypeError |})
    ∧ length [VNum 4; VNum 5] = 2%nat.
Proof.
  apply (deleteMany_rejects_identifiers "http://api"
           (answering (fun _ => VUndef)) plain_object
           "posts" 4%nat example_world (VNum 4) [VNum 5] []);
    [reflexivity|reflexivity|].
  repeat constructor; eexists; reflexivity.
Defined.

Lemma update_sends_without_id_witness :
  ∃ t ps',
    update "http://api" (answering (fun _ => VUndef)) property_names plain_object
      "posts" (VNum 7) (VRef 0%nat) example_world
    = ({| store := <[0%nat := HObj ps']> example_store;
          sent := [{| url := "http://api/posts/7";
                      method := Some "PUT";
                      body := Some "Id,title" |}] |},
       Return {| settles_at := t;
                 outcome := Fulfilled {| data := VRef 0%nat;
                                         total := None |} |})
    ∧ <[0%nat := HObj [("Id", VNum 7); ("title", VStr "t")]]> example_store
        !! 0%nat
      = Some (HObj [("Id", VNum 7); ("title", VStr "t")])
    ∧ prop_get "id" [("Id", VNum 7); ("title", VStr "t")] = None
    ∧ (∀ k, k ≠ "id" →
            prop_get k [("Id", VNum 7); ("title", VStr "t")]
            = prop_get k [("id", VNum 7); ("Id", VNum 7); ("title", VStr "t")])
    ∧ prop_get "id" ps' = Some (VNum 7)
    ∧ (∀ k, k ≠ "id" →
            prop_get k ps'
            = prop_get k [("id", VNum 7); ("Id", VNum 7); ("title", VStr "t")]).
Proof.
  apply (update_sends_without_id "http://api"
           (answering (fun _ => VUndef)) property_names plain_object
           "posts" (VNum 7) 0%nat
           [("id", VNum 7); ("Id", VNum 7); ("title", VStr "t")]
           example_world {| json := VUndef |}); reflexivity.
Defined.

(** C3, as stated, fails on a record that has an [Id]: the data the
    call resolves with has an [id] again. *)
Lemma update_result_counterexample :
  ∃ w' t,
    update "http://api" (answering (fun _ => VUndef)) property_names plain_object
      "posts" (VNum 7) (VRef 0%nat) example_world
    = (w', Return {| settles_at := t;
                     outcome := Fulfilled {| data := VRef 0%nat;
                                             total := None |} |})
    ∧ example_store !! 0%nat
      = Some (HObj [("id", VNum 7); ("Id", VNum 7); ("title", VStr "t")])
    ∧ store w' !! 0%nat
      = Some (HObj [("Id", VNum 7); ("title", VStr "t"); ("id", VNum 7)])
    ∧ store w' !! 0%nat
      ≠ Some (HObj (prop_del "id"
                      [("id", VNum 7); ("Id", VNum 7); ("title", VStr "t")]))
    ∧ Get (store w') (VRef 0%nat) "id" = Some (VNum 7).
Proof.
  eexists _, _. split_and!; [reflexivity|reflexivity|reflexivity| |reflexivity].
  intros H. vm_compute in H. discriminate H.
Qed.

Lemma update_deletes_id_in_place_witness :
  ∃ t w',
    update "http://api" (rejecting (Reason (VStr "Bad Request"))) property_names
      plain_object "posts" (VNum 7) (VRef 0%nat) example_world
    = (w', Return {| settles_at := t;
                     outcome := Rejected (Reason (VStr "Bad Request")) |})
    ∧ sent w' = [{| url := "http://api/posts/7";
                    method := Some "PUT";
                      body := Some "Id,title" |}]
    ∧ store w' !! 0%nat = Some (HObj [("Id", VNum 7); ("title", VStr "t")])
    ∧ prop_get "id" [("Id", VNum 7); ("title", VStr "t")] = None
    ∧ Get (store w') (VRef 0%nat) "id" = Some VUndef
    ∧ (∀ l', l' ≠ 0%nat → store w' !! l' = example_store !! l').
Proof.
  apply (update_deletes_id_in_place "http://api"
           (rejecting (Reason (VStr "Bad Request"))) property_names plain_object
           "posts" (VNum 7) 0%nat
           [("id", VNum 7); ("Id", VNum 7); ("title", VStr "t")]
           example_world (Reason (VStr "Bad Request"))); reflexivity.
Defined.

Lemma rejections_propagate_witness :
  (∃ req,
     [{| url := "http://api/posts/7"; method := None; body := None |}]
     = sent example_world ++ [req]
     ∧ ∀ e, outcome (rejecting (Reason (VStr "Not Found"))
                       (sent example_world) req) = Rejected e →
            Rejected (Reason (VStr "Not Found")) = @Rejected result e)
  ∧ (∃ es reqs,
       Array_elems (VRef 4%nat) example_world = (example_world, Return es)
       ∧ length reqs = length es
       ∧ [{| url := "http://api/posts/4";
             method := Some "DELETE"; body := None |};
          {| url := "http://api/posts/5";
             method := Some "DELETE"; body := None |}]
         = sent example_world ++ reqs
       ∧ (Exists (fun q => ∃ e, outcome q = Rejected e)
            (replies (rejecting_url "http://api/posts/5"
                        (Reason (VStr "Conflict")))
                     (sent example_world) reqs) →
          ∃ q e,
            q ∈ replies (rejecting_url "http://api/posts/5"
                           (Reason (VStr "Conflict")))
                        (sent example_world) reqs
            ∧ outcome q = Rejected e
            ∧ Rejected (Reason (VStr "Conflict")) = @Rejected result e)).
Proof.
  split.
  - exact (proj1 (proj2 (rejections_propagate "http://api"
             (rejecting (Reason (VStr "Not Found")))
             property_names no_query no_filter plain_object))
             "posts" (VNum 7) example_world
             {| store := example_store;
                sent := [{| url := "http://api/posts/7";
                            method := None; body := None |}] |}
             {| settles_at := 0;
                outcome := Rejected (Reason (VStr "Not Found")) |}
             eq_refl).
  - exact (proj2 (proj2 (proj2 (proj2 (proj2 (proj2 (proj2 (proj2
             (rejections_propagate "http://api"
                (rejecting_url "http://api/posts/5" (Reason (VStr "Conflict")))
                property_names no_query no_filter plain_object))))))))
             "posts" (VRef 4%nat) example_world
             {| store := example_store;
                sent := [{| url := "http://api/posts/4";
                            method := Some "DELETE"; body := None |};
                         {| url := "http://api/posts/5";
                            method := Some "DELETE"; body := None |}] |}
             {| settles_at := 1;
                outcome := Rejected (Reason (VStr "Conflict")) |}
             eq_refl).
Defined.

(** * Further properties *)

(** ** More on the identifier normaliser *)

Lemma idFunc_record w l ps :
  store w !! l = Some (HObj ps) →
  idFunc (VRef l) w
  = ({| store := <[l := HObj (normalized ps)]> (store w); sent := sent w |},
     Return (VRef l)).
Proof.
  intros Hl. unfold idFunc, bind, get_store; simpl. rewrite Hl.
  by apply idFuncSingle_record.
Qed.

Lemma idFunc_primitive w v :
  is_primitive v = true → idFunc v w = (w, Throw TypeError).
Proof.
  intros Hv. unfold idFunc, bind at 1, get_store.
  assert (Array_isArray (store w) v = false) as -> by (by destruct v).
  apply idFuncSingle_primitive. intros l ->. done.
Qed.

Lemma mapM_app {A B} (f : A → M B) l1 l2 w :
  mapM f (l1 ++ l2) w
  = (xs <- mapM f l1 ;; ys <- mapM f l2 ;; ret (xs ++ ys)) w.
Proof.
  revert w. induction l1 as [|x l1 IH]; intros w.
  - cbn [app mapM]. unfold bind at 1, ret at 1.
    unfold bind. destruct (mapM f l2 w) as [w' [ys|e]]; reflexivity.
  - cbn [app mapM]. unfold bind. destruct (f x w) as [w1 [y|e]]; [|reflexivity].
    rewrite IH. unfold bind, ret.
    destruct (mapM f l1 w1) as [w2 [xs|e]]; [|reflexivity].
    destruct (mapM f l2 w2) as [w3 [ys|e]]; reflexivity.
Qed.

(** X1. A record without [Id] gets [id] set to [undefined], whatever
    [id] it had before; the other fields stay. *)
Theorem idFunc_without_Id_clears_id :
  ∀ w l ps,
    store w !! l = Some (HObj ps) →
    prop_get "Id" ps = None →
    ∃ ps',
      idFunc (VRef l) w
      = ({| store := <[l := HObj ps']> (store w); sent := sent w |},
         Return (VRef l))
      ∧ prop_get "id" ps' = Some VUndef
      ∧ Get (<[l := HObj ps']> (store w)) (VRef l) "id" = Some VUndef
      ∧ ∀ k, k ≠ "id" → prop_get k ps' = prop_get k ps.
Proof.
  intros w l ps Hl HId. exists (normalized ps). split_and!.
  - by apply idFunc_record.
  - unfold normalized. by rewrite HId, prop_get_set_eq.
  - cbn [Get]. rewrite lookup_insert_eq. unfold normalized.
    by rewrite HId, prop_get_set_eq.
  - intros k Hk. by apply normalized_other.
Qed.

(** X2. Normalising a record twice is the same as normalising it once:
    the second [idFunc] returns the same record and leaves the store as
    the first one made it. *)
Theorem idFunc_twice :
  ∀ w l ps,
    store w !! l = Some (HObj ps) →
    (json <- idFunc (VRef l) ;; idFunc json) w = idFunc (VRef l) w.
Proof.
  intros w l ps Hl. unfold bind. rewrite (idFunc_record w l ps Hl).
  rewrite (idFunc_record _ l (normalized ps)).
  - cbn [store sent]. by rewrite insert_insert_eq, normalized_idem.
  - cbn [store]. by rewrite lookup_insert_eq.
Qed.

(** X3. [idFunc] throws a [TypeError] on every primitive, writing
    nothing; on an array whose records are followed by a primitive it
    throws as well, returns no array, and the records before the
    primitive stay normalised. *)
Theorem idFunc_throws_on_primitive :
  (∀ w v, is_primitive v = true → idFunc v w = (w, Throw TypeError))
  ∧ (∀ w la ls v rest aps,
       store w !! la = Some (HArr (map VRef ls ++ v :: rest) aps) →
       (∀ l, l ∈ ls → ∃ ps, store w !! l = Some (HObj ps)) →
       is_primitive v = true →
       ∃ h',
         idFunc (VRef la) w = ({| store := h'; sent := sent w |}, Throw TypeError)
         ∧ dom h' = dom (store w)
         ∧ (∀ l, l ∉ ls → h' !! l = store w !! l)
         ∧ (∀ l ps, l ∈ ls → store w !! l = Some (HObj ps) →
              h' !! l = Some (HObj (normalized ps)))).
Proof.
  split; [apply idFunc_primitive|].
  intros w la ls v rest aps Hla Hrec Hv.
  destruct (mapM_idFuncSingle_records ls w Hrec)
    as (h' & Hrun & Hdom & Hframe & Hnorm).
  exists h'. split_and!; try done.
  unfold idFunc, bind at 1, get_store. cbn [Array_isArray store].
  rewrite Hla. unfold bind at 1. rewrite (Array_elems_array _ _ _ _ Hla).
  unfold bind at 1. rewrite mapM_app. unfold bind at 1. rewrite Hrun.
  unfold bind at 1. cbn [mapM]. unfold bind at 1.
  rewrite idFuncSingle_primitive; [done|]. intros l ->. done.
Qed.

(** X4. [idFunc] does not write to the array it is given: it returns
    another array, and the given array and every object that is not one
    of its records are as before. *)
Theorem idFunc_copies_the_array :
  ∀ w la ls aps,
    store w !! la = Some (HArr (map VRef ls) aps) →
    (∀ l, l ∈ ls → ∃ ps, store w !! l = Some (HObj ps)) →
    ∃ h' lnew,
      idFunc (VRef la) w = ({| store := h'; sent := sent w |}, Return (VRef lnew))
      ∧ lnew ≠ la
      ∧ h' !! la = Some (HArr (map VRef ls) aps)
      ∧ ∀ l, l ∉ ls → l ≠ lnew → h' !! l = store w !! l.
Proof.
  intros w la ls aps Hla Hrec.
  destruct (idFunc_records w la ls aps Hla Hrec)
    as (h' & lnew & Hrun & Hnew & _ & Hframe & _).
  exists h', lnew. split_and!; try done.
  - intros ->. congruence.
  - rewrite Hframe; [done| |intros <-; congruence].
    intros Hin. destruct (Hrec la Hin) as [ps Hps]. congruence.
Qed.

(** ** More on the filter compiler *)

Section FilterStore.

Variable objects : conversions.

Lemma sort_le_total h x y :
  sort_le objects h x y = true ∨ sort_le objects h y x = true.
Proof.
  destruct x, y; cbn [sort_le]; auto using String.leb_total.
Qed.

Lemma sort_insert_perm h x l : sort_insert objects h x l ≡ₚ x :: l.
Proof.
  induction l as [|y l IH]; simpl; [done|].
  destruct (sort_le _ _ _ _); [done|]. rewrite IH. apply Permutation_swap.
Qed.

Lemma sorted_perm h es : sorted objects h es ≡ₚ es.
Proof.
  induction es as [|x es IH]; simpl; [done|].
  by rewrite sort_insert_perm, IH.
Qed.

Lemma sort_insert_Sorted h x l :
  Sorted (fun a b => sort_le objects h a b = true) l →
  Sorted (fun a b => sort_le objects h a b = true)
         (sort_insert objects h x l).
Proof.
  induction 1 as [|y l Hl IH Hhd]; simpl.
  - repeat constructor.
  - destruct (sort_le objects h x y) eqn:E.
    + constructor; [by constructor|]. by constructor.
    + constructor; [done|].
      assert (Hyx : sort_le objects h y x = true).
      { destruct (sort_le_total h x y); congruence. }
      destruct Hhd as [|z l' Hz]; simpl.
      * by constructor.
      * destruct (sort_le objects h x z); by constructor.
Qed.

Lemma sorted_Sorted h es :
  Sorted (fun a b => sort_le objects h a b = true)
         (sorted objects h es).
Proof.
  induction es as [|x es IH]; simpl; [constructor|].
  by apply sort_insert_Sorted.
Qed.

(** Sorting what is sorted changes nothing. *)
Lemma sorted_fixed h l :
  Sorted (fun a b => sort_le objects h a b = true) l →
  sorted objects h l = l.
Proof.
  induction 1 as [|x l Hl IH Hhd]; [done|].
  cbn [sorted foldr]. fold (sorted objects h l). rewrite IH.
  destruct Hhd as [|y l' Hxy]; [done|]. simpl. by rewrite Hxy.
Qed.

Lemma sorted_heap_identifiers h h' es :
  Forall (fun v => is_identifier v = true) es →
  sorted objects h es = sorted objects h' es.
Proof.
  induction 1 as [|x es Hx Hes IH]; [done|].
  cbn [sorted foldr]. fold (sorted objects h es).
  fold (sorted objects h' es). rewrite <- IH.
  destruct (sorted_identifiers objects h es Hes) as [Hids _].
  clear IH. induction Hids as [|y l Hy Hl IHl]; [done|].
  simpl. rewrite !sort_le_identifiers by done.
  destruct (String.leb _ _); [done|]. by rewrite IHl.
Qed.

(** X5. [getOdataFilter] sorts an array value where it is, in the
    caller's store: afterwards the array holds the same elements, in the
    order of [sort()], and no other object has changed. A value that is
    no array leaves the store as it is. *)
Theorem getOdataFilter_sorts_in_place :
  (∀ h filterKey l es ps,
     h !! l = Some (HArr es ps) →
     ∃ es',
       fst (getOdataFilter objects h [(filterKey, VRef l)])
       = <[l := HArr es' ps]> h
       ∧ es' ≡ₚ es
       ∧ Sorted (fun a b => sort_le objects h a b = true) es'
       ∧ ∀ l', l' ≠ l →
           fst (getOdataFilter objects h [(filterKey, VRef l)]) !! l'
           = h !! l')
  ∧ (∀ h filterKey v,
       Array_isArray h v = false →
       fst (getOdataFilter objects h [(filterKey, v)]) = h).
Proof.
  split.
  - intros h filterKey l es ps Hl. exists (sorted objects h es).
    rewrite (getOdataFilter_array objects h filterKey l es ps Hl). cbn [fst].
    split_and!; [done|apply sorted_perm|apply sorted_Sorted|].
    intros l' Hne. by rewrite lookup_insert_ne.
  - intros h filterKey v Hv. unfold getOdataFilter. cbn [map fst fold_left].
    unfold filter_step. cbn [prop_get]. rewrite String.eqb_refl.
    change (default VUndef (Some v)) with v. by rewrite Hv.
Qed.

(** X6. Compiling the same filter on an array of identifiers a second
    time returns the same string and writes nothing new: the array is
    sorted already. *)
Theorem getOdataFilter_again :
  ∀ h filterKey l es ps,
    h !! l = Some (HArr es ps) →
    Forall (fun v => is_identifier v = true) es →
    getOdataFilter objects
      (fst (getOdataFilter objects h [(filterKey, VRef l)]))
      [(filterKey, VRef l)]
    = getOdataFilter objects h [(filterKey, VRef l)].
Proof.
  intros h filterKey l es ps Hl Hes.
  rewrite (getOdataFilter_array objects h filterKey l es ps Hl). cbn [fst].
  set (es' := sorted objects h es).
  set (h' := <[l := HArr es' ps]> h).
  assert (Hl' : h' !! l = Some (HArr es' ps)) by apply lookup_insert_eq.
  rewrite (getOdataFilter_array objects h' filterKey l es' ps Hl').
  assert (Hids : Forall (fun v => is_identifier v = true) es').
  { by destruct (sorted_identifiers objects h es Hes). }
  assert (sorted objects h' es' = es') as ->.
  { rewrite <- (sorted_heap_identifiers h h' es' Hids).
    apply sorted_fixed, sorted_Sorted. }
  assert (<[l := HArr es' ps]> h' = h') as ->.
  { unfold h'. by rewrite insert_insert_eq. }
  done.
Qed.

End FilterStore.

(** ** More on the handlers *)

Section MoreHandlerProperties.

Variable apiUrl : string.
Variable httpClient : list request -> request -> promise response.
Variable JSON_stringify : heap -> value -> option string.
Variable stringify : heap -> props -> string.
Variable flattenObject : heap -> value -> props.
Variable objects : conversions.

(** A request that is fulfilled: the callback runs on the answer, in the
    store as the request left it. *)
Lemma fetch_then_fulfilled (req : request) (cb : response → M result) w r :
  outcome (httpClient (sent w) req) = Fulfilled r →
  (q <- fetch httpClient req ;; then_ q cb) w
  = match cb r {| store := store w; sent := sent w ++ [req] |} with
    | (w', Return b) =>
        (w', Return {| settles_at := settles_at (httpClient (sent w) req);
                       outcome := Fulfilled b |})
    | (w', Throw e) =>
        (w', Return {| settles_at := settles_at (httpClient (sent w) req);
                       outcome := Rejected e |})
    end.
Proof.
  intros Hr. unfold bind at 1. unfold fetch. unfold then_. by rewrite Hr.
Qed.

Lemma echo_record w l ps :
  store w !! l = Some (HObj ps) →
  (data' <- idFunc (VRef l) ;; ret {| data := data'; total := None |}) w
  = ({| store := <[l := HObj (normalized ps)]> (store w); sent := sent w |},
     Return {| data := VRef l; total := None |}).
Proof. intros Hl. unfold bind. by rewrite (idFunc_record w l ps Hl). Qed.

Lemma echo_primitive w v :
  is_primitive v = true →
  (data' <- idFunc v ;; ret {| data := data'; total := None |}) w
  = (w, Throw TypeError).
Proof. intros Hv. unfold bind. by rewrite (idFunc_primitive w v Hv). Qed.

(** X7. [delete] sends one DELETE to [apiUrl/resource/id] and, when it
    succeeds, resolves with [params] itself after [idFunc]: [params.id]
    is overwritten with [params.Id], so that for [params] without [Id]
    the data that comes back has [id] [undefined]. *)
Theorem delete_resolves_with_params :
  ∀ resource l ps id w r,
    store w !! l = Some (HObj ps) →
    prop_get "id" ps = Some id →
    let req := {| url := apiUrl +:+ "/" +:+ resource +:+ "/" +:+
                         ToString objects (store w) id;
                  method := Some "DELETE"; body := None |} in
    outcome (httpClient (sent w) req) = Fulfilled r →
    ∃ t,
      delete_ apiUrl httpClient objects resource (VRef l) w
      = ({| store := <[l := HObj (normalized ps)]> (store w);
            sent := sent w ++ [req] |},
         Return {| settles_at := t;
                   outcome := Fulfilled {| data := VRef l; total := None |} |})
      ∧ prop_get "id" (normalized ps) = Some (default VUndef (prop_get "Id" ps))
      ∧ (prop_get "Id" ps = None →
         Get (<[l := HObj (normalized ps)]> (store w)) (VRef l) "id"
         = Some VUndef).
Proof.
  intros resource l ps id w r Hl Hid req Hr.
  exists (settles_at (httpClient (sent w) req)). split_and!.
  - unfold delete_. unfold bind at 1. unfold reading. cbn [Get].
    rewrite Hl, Hid. change (default VUndef (Some id)) with id.
    unfold bind at 1. unfold get_store. fold req.
    rewrite (fetch_then_fulfilled req _ w r Hr).
    by rewrite (echo_record _ l ps).
  - unfold normalized. by rewrite prop_get_set_eq.
  - intros HId. cbn [Get]. rewrite lookup_insert_eq. unfold normalized.
    by rewrite HId, prop_get_set_eq.
Qed.

(** X8. [getOne] sends one GET to [apiUrl/resource/id], without method
    or body, and when the answer is a record resolves with that record,
    normalised where it is. *)
Theorem getOne_normalizes_record :
  ∀ resource id w r lr ps,
    let req := {| url := apiUrl +:+ "/" +:+ resource +:+ "/" +:+
                         ToString objects (store w) id;
                  method := None; body := None |} in
    outcome (httpClient (sent w) req) = Fulfilled r →
    json r = VRef lr →
    store w !! lr = Some (HObj ps) →
    ∃ t,
      getOne apiUrl httpClient objects resource id w
      = ({| store := <[lr := HObj (normalized ps)]> (store w);
            sent := sent w ++ [req] |},
         Return {| settles_at := t;
                   outcome := Fulfilled {| data := VRef lr; total := None |} |}).
Proof.
  intros resource id w r lr ps req Hr Hjson Hlr.
  exists (settles_at (httpClient (sent w) req)).
  unfold getOne. unfold bind at 1. unfold get_store. fold req.
  rewrite (fetch_then_fulfilled req _ w r Hr). rewrite Hjson.
  by rewrite (echo_record _ lr ps).
Qed.

(** X9. [create] sends one POST to [apiUrl/resource] whose body is
    [JSON.stringify(params.data)] of the data as it is, and when the
    answer is a record resolves with that record, normalised; no other
    object is written, the caller's data included. *)
Theorem create_posts_data_as_is :
  ∀ resource d w r lr ps,
    let req := {| url := apiUrl +:+ "/" +:+ resource;
                  method := Some "POST";
                  body := JSON_stringify (store w) d |} in
    outcome (httpClient (sent w) req) = Fulfilled r →
    json r = VRef lr →
    store w !! lr = Some (HObj ps) →
    ∃ t w',
      create apiUrl httpClient JSON_stringify resource d w
      = (w', Return {| settles_at := t;
                       outcome := Fulfilled {| data := VRef lr;
                                               total := None |} |})
      ∧ sent w' = sent w ++ [req]
      ∧ store w' !! lr = Some (HObj (normalized ps))
      ∧ ∀ l, l ≠ lr → store w' !! l = store w !! l.
Proof.
  intros resource d w r lr ps req Hr Hjson Hlr.
  exists (settles_at (httpClient (sent w) req)),
         {| store := <[lr := HObj (normalized ps)]> (store w);
            sent := sent w ++ [req] |}.
  split_and!.
  - unfold create. unfold bind at 1. unfold get_store. fold req.
    rewrite (fetch_then_fulfilled req _ w r Hr). rewrite Hjson.
    by rewrite (echo_record _ lr ps).
  - done.
  - cbn [store]. by rewrite lookup_insert_eq.
  - intros l Hne. cbn [store]. by rewrite lookup_insert_ne.
Qed.

(** [getMany] on an array of identifiers, up to its request: the ids are
    sorted in the store and the filter lists them by their strings. *)
Lemma getMany_identifiers resource lids es ps w :
  store w !! lids = Some (HArr es ps) →
  Forall (fun v => is_identifier v = true) es →
  getMany apiUrl httpClient objects resource (VRef lids) w
  = (q <- fetch httpClient
            {| url := apiUrl +:+ "/" +:+ resource +:+ "?" +:+
                      "$filter=" +:+ "Id" +:+ " in (" +:+
                      String.concat ", "
                        (map render_key
                           (string_sort (map identifier_string es))) +:+
                      ")";
               method := None; body := None |} ;;
     then_ q (fun r =>
       value <- reading (fun h => Get h (json r) "value") ;;
       data' <- idFunc value ;;
       ret {| data := data'; total := None |}))
      {| store := <[lids := HArr (sorted objects (store w) es) ps]>
                    (store w);
         sent := sent w |}.
Proof.
  intros Hl Hes. unfold getMany. unfold bind at 1.
  pose proof (getOdataFilter_array objects (store w) "Id"
                lids es ps Hl) as Hfst.
  pose proof (getOdataFilter_identifiers objects (store w) "Id"
                lids es ps Hl Hes) as Hsnd.
  destruct (getOdataFilter objects (store w) [("Id", VRef lids)])
    as [h s]. cbn [snd] in Hsnd. injection Hfst as -> _. by subst s.
Qed.

Lemma keeps_sent_value_echo (r : response) :
  keeps_sent (value <- reading (fun h => Get h (json r) "value") ;;
              data' <- idFunc value ;;
              ret {| data := data'; total := None |}).
Proof.
  apply keeps_sent_bind; [apply keeps_sent_reading|].
  intros v. apply keeps_sent_echo.
Qed.

(** X10. [getMany] on an array of identifiers sends one GET whose query
    is [$filter=Id in (...)] with the identifiers in the order of their
    strings, and sorts the caller's array of ids where it is before
    the request leaves: the array stays sorted also when the request is
    rejected. *)
Theorem getMany_sorts_ids_in_place :
  ∀ resource lids es ps w,
    store w !! lids = Some (HArr es ps) →
    Forall (fun v => is_identifier v = true) es →
    let es' := sorted objects (store w) es in
    let req := {| url := apiUrl +:+ "/" +:+ resource +:+ "?" +:+
                         "$filter=" +:+ "Id" +:+ " in (" +:+
                         String.concat ", "
                           (map render_key
                              (string_sort (map identifier_string es))) +:+
                         ")";
                  method := None; body := None |} in
    ∃ w' p,
      getMany apiUrl httpClient objects resource (VRef lids) w
      = (w', Return p)
      ∧ sent w' = sent w ++ [req]
      ∧ es' ≡ₚ es
      ∧ map identifier_string es' = string_sort (map identifier_string es)
      ∧ ∀ e, outcome (httpClient (sent w) req) = Rejected e →
             outcome p = Rejected e
             ∧ store w' = <[lids := HArr es' ps]> (store w).
Proof.
  intros resource lids es ps w Hl Hes es' req.
  rewrite (getMany_identifiers resource lids es ps w Hl Hes). fold es' req.
  set (w1 := {| store := <[lids := HArr es' ps]> (store w); sent := sent w |}).
  destruct (fetch_then httpClient req _ w1 keeps_sent_value_echo)
    as (w' & p & Hrun & Hsent & _ & Hrej).
  exists w', p. split_and!.
  - exact Hrun.
  - done.
  - apply sorted_perm.
  - by destruct (sorted_identifiers objects (store w) es Hes).
  - exact Hrej.
Qed.

(** X11. [getMany] on an empty array of ids still sends its request,
    with the filter [$filter=Id in ()]. *)
Theorem getMany_without_ids_still_asks :
  ∀ resource lids ps w,
    store w !! lids = Some (HArr [] ps) →
    ∃ w' p,
      getMany apiUrl httpClient objects resource (VRef lids) w
      = (w', Return p)
      ∧ sent w'
        = sent w ++ [{| url := apiUrl +:+ "/" +:+ resource +:+ "?" +:+
                               "$filter=Id in ()";
                        method := None; body := None |}].
Proof.
  intros resource lids ps w Hl.
  rewrite (getMany_identifiers resource lids [] ps w Hl); [|constructor].
  set (w1 := {| store := _; sent := sent w |}).
  destruct (fetch_then httpClient
              {| url := apiUrl +:+ "/" +:+ resource +:+ "?" +:+
                        "$filter=Id in ()";
                 method := None; body := None |}
              _ w1 keeps_sent_value_echo)
    as (w' & p & Hrun & Hsent & _).
  exists w', p. split; [exact Hrun|exact Hsent].
Qed.

(** What the callback of [getList] and [getManyReference] makes of an
    envelope of records. *)
Lemma envelope_result_records w r lj eps la ls aps :
  json r = VRef lj →
  store w !! lj = Some (HObj eps) →
  prop_get "value" eps = Some (VRef la) →
  store w !! la = Some (HArr (map VRef ls) aps) →
  (∀ l, l ∈ ls → ∃ ps, store w !! l = Some (HObj ps)) →
  ∃ h' lnew,
    envelope_result r w
    = ({| store := h'; sent := sent w |},
       Return {| data := VRef lnew;
                 total := Some (VNum (Z.of_nat (length ls))) |})
    ∧ store w !! lnew = None
    ∧ h' !! lnew = Some (HArr (map VRef ls) [])
    ∧ ∀ l ps, l ∈ ls → store w !! l = Some (HObj ps) →
              h' !! l = Some (HObj (normalized ps)).
Proof.
  intros Hjson Hlj Hvalue Hla Hrec.
  destruct (idFunc_records w la ls aps Hla Hrec)
    as (h' & lnew & Hrun & Hnew & Harr & Hframe & Hnorm).
  exists h', lnew. split_and!; try done.
  unfold envelope_result. unfold bind at 1. unfold reading at 1.
  rewrite Hjson. cbn [Get]. rewrite Hlj, Hvalue.
  change (default VUndef (Some (VRef la))) with (VRef la).
  unfold bind at 1. rewrite Hrun.
  unfold bind at 1. unfold reading at 1. cbn [Get store].
  assert (Hla' : h' !! la = Some (HArr (map VRef ls) aps)).
  { rewrite Hframe; [done| |].
    - intros Hin. destruct (Hrec la Hin) as [ps Hps]. congruence.
    - intros <-. congruence. }
  rewrite Hla'. rewrite String.eqb_refl. unfold ret. by rewrite length_map.
Qed.

(** X12. [getManyReference] with an identifier [id] and a target other
    than [__proto__] sends one GET whose query is [$filter=target in
    (id)], the id in quotes unless it parses as a number, and writes
    nothing before the answer; answered with an envelope of records it
    resolves, like [getList], with a new array of the normalised records
    and [total], the length of that array. With the target [__proto__]
    the assignment creates no property and the query is [$filter=]. *)
Theorem getManyReference_filters_on_target :
  ∀ resource target id w,
    is_identifier id = true →
    let req := {| url := apiUrl +:+ "/" +:+ resource +:+ "?" +:+
                         (if String.eqb target "__proto__" then "$filter="
                          else "$filter=" +:+ target +:+ " in (" +:+
                               render_key (identifier_string id) +:+ ")");
                  method := None; body := None |} in
    (∃ w' p,
       getManyReference apiUrl httpClient objects
         resource target id w = (w', Return p)
       ∧ sent w' = sent w ++ [req]
       ∧ ∀ e, outcome (httpClient (sent w) req) = Rejected e →
              outcome p = Rejected e ∧ store w' = store w)
    ∧ (∀ r lj eps la ls aps,
         outcome (httpClient (sent w) req) = Fulfilled r →
         json r = VRef lj →
         store w !! lj = Some (HObj eps) →
         prop_get "value" eps = Some (VRef la) →
         store w !! la = Some (HArr (map VRef ls) aps) →
         (∀ l, l ∈ ls → ∃ ps, store w !! l = Some (HObj ps)) →
         ∃ t h' lnew,
           getManyReference apiUrl httpClient objects
             resource target id w
           = ({| store := h'; sent := sent w ++ [req] |},
              Return {| settles_at := t;
                        outcome :=
                          Fulfilled
                            {| data := VRef lnew;
                               total := Some (VNum (Z.of_nat (length ls))) |} |})
           ∧ h' !! lnew = Some (HArr (map VRef ls) [])
           ∧ ∀ l ps, l ∈ ls → store w !! l = Some (HObj ps) →
                     h' !! l = Some (HObj (normalized ps))).
Proof.
  intros resource target id w Hid req.
  assert (Hfilter : getOdataFilter objects (store w)
                      (reference_filterObj (store w) target id)
                    = (store w,
                       if String.eqb target "__proto__" then "$filter="
                       else "$filter=" +:+ target +:+ " in (" +:+
                            render_key (identifier_string id) +:+ ")")).
  { unfold reference_filterObj.
    destruct (String.eqb target "__proto__").
    - by destruct id.
    - unfold getOdataFilter. cbn [prop_set map fst fold_left].
      unfold filter_step. cbn [prop_get]. rewrite String.eqb_refl.
      change (default VUndef (Some id)) with id.
      assert (Array_isArray (store w) id = false) as -> by (by destruct id).
      cbn [negb]. rewrite String.eqb_refl. cbn [negb].
      unfold Array_join. cbn [map String.concat].
      by rewrite (render_identifier objects (store w) id Hid). }
  assert (Hrun : getManyReference apiUrl httpClient objects
                   resource target id w
                 = (q <- fetch httpClient req ;; then_ q envelope_result) w).
  { unfold getManyReference. unfold bind at 1. unfold get_store.
    unfold bind at 1. rewrite Hfilter. by destruct w. }
  split.
  - destruct (fetch_then httpClient req envelope_result w
                keeps_sent_envelope_result)
      as (w' & p & Hrun' & Hsent & _ & Hrej).
    exists w', p. split_and!; [by rewrite Hrun|done|done].
  - intros r lj eps la ls aps Hr Hjson Hlj Hvalue Hla Hrec.
    set (w1 := {| store := store w; sent := sent w ++ [req] |}).
    destruct (envelope_result_records w1 r lj eps la ls aps
                Hjson Hlj Hvalue Hla Hrec)
      as (h' & lnew & Hcb & _ & Harr & Hnorm).
    exists (settles_at (httpClient (sent w) req)), h', lnew.
    split_and!; [|done|done].
    rewrite Hrun. rewrite (fetch_then_fulfilled req _ w r Hr).
    fold w1. by rewrite Hcb.
Qed.

(** X13. [updateMany] and [deleteMany] on an empty array of ids send
    nothing and resolve with a new, empty array. *)
Theorem fan_out_without_ids :
  ∀ resource lids d ps w,
    store w !! lids = Some (HArr [] ps) →
    ∃ lnew,
      store w !! lnew = None
      ∧ updateMany apiUrl httpClient JSON_stringify objects
          resource (VRef lids) d w
        = ({| store := <[lnew := HArr [] []]> (store w); sent := sent w |},
           Return {| settles_at := 0;
                     outcome := Fulfilled {| data := VRef lnew;
                                             total := None |} |})
      ∧ deleteMany apiUrl httpClient objects resource (VRef lids) w
        = ({| store := <[lnew := HArr [] []]> (store w); sent := sent w |},
           Return {| settles_at := 0;
                     outcome := Fulfilled {| data := VRef lnew;
                                             total := None |} |}).
Proof.
  intros resource lids d ps w Hl. exists (fresh (dom (store w))).
  assert (Hw : {| store := store w; sent := sent w |} = w) by (by destruct w).
  split_and!.
  - apply not_elem_of_dom, is_fresh.
  - unfold updateMany. unfold bind at 1.
    rewrite (Array_elems_array w lids [] ps Hl). unfold bind at 1.
    cbn [mapM]. unfold ret at 1. unfold then_. cbn [Promise_all outcome].
    unfold Promise_all. cbn [first_rejection fulfilled_values outcome
                             settles_at map foldr mapM].
    unfold bind, ret, alloc. done.
  - unfold deleteMany. unfold bind at 1.
    rewrite (Array_elems_array w lids [] ps Hl). unfold bind at 1.
    cbn [mapM]. unfold ret at 1. unfold then_.
    unfold Promise_all. cbn [first_rejection fulfilled_values outcome
                             settles_at map foldr].
    unfold bind at 1. unfold idFunc. unfold bind at 1. unfold get_store.
    cbn [Array_isArray]. rewrite Hl. unfold bind at 1.
    rewrite (Array_elems_array w lids [] ps Hl).
    cbn [mapM]. unfold bind, ret, alloc. done.
Qed.

(** X14. [updateMany] reads [json.Id] off every answer: when all PUT
    requests succeed but one of them is answered without a body
    ([json] is [undefined] or [null]), the call is rejected with a
    [TypeError], after all the requests have gone out. *)
Theorem updateMany_rejects_without_body :
  ∀ resource lids d w es ps,
    store w !! lids = Some (HArr es ps) →
    let reqs :=
      map (fun id =>
             {| url := apiUrl +:+ "/" +:+ resource +:+ "/" +:+
                       ToString objects (store w) id;
                method := Some "PUT";
                body := JSON_stringify (store w) d |}) es in
    Forall (fun p => ∃ r, outcome p = Fulfilled r)
           (replies httpClient (sent w) reqs) →
    Exists (fun p => ∃ r, outcome p = Fulfilled r ∧ is_nullish (json r) = true)
           (replies httpClient (sent w) reqs) →
    ∃ t,
      updateMany apiUrl httpClient JSON_stringify objects
        resource (VRef lids) d w
      = ({| store := store w; sent := sent w ++ reqs |},
         Return {| settles_at := t; outcome := Rejected TypeError |}).
Proof.
  intros resource lids d w es ps Hl reqs Hall Hex.
  exists (settles_at (Promise_all (replies httpClient (sent w) reqs))).
  unfold updateMany. unfold bind at 1.
  rewrite (Array_elems_array w lids es ps Hl). unfold bind at 1.
  rewrite (fan_out httpClient (fun h id =>
    {| url := apiUrl +:+ "/" +:+ resource +:+ "/" +:+
              ToString objects h id;
       method := Some "PUT"; body := JSON_stringify h d |})).
  fold reqs. unfold then_. rewrite (Promise_all_fulfilled _ Hall).
  unfold bind at 1.
  rewrite (mapM_reading_throws (fun r h => Get h (json r) "Id")); [done|].
  apply fulfilled_values_Exists.
  eapply Exists_impl; [exact Hex|].
  intros p (r & Hr & Hnull). exists r. split; [done|].
  by apply Get_nullish.
Qed.

(** X15. What a handler cannot start on, it throws at once, before any
    request: [update] on data that is [undefined] or [null] (the
    [delete] of its [id]), [updateMany] and [deleteMany] on ids that are
    no array (the call of [map]). The store is as before. *)
Theorem handlers_throw_before_sending :
  (∀ resource id d w,
     is_nullish d = true →
     update apiUrl httpClient JSON_stringify objects resource id d w
     = (w, Throw TypeError))
  ∧ (∀ resource ids d w,
       Array_isArray (store w) ids = false →
       updateMany apiUrl httpClient JSON_stringify objects
         resource ids d w
       = (w, Throw TypeError))
  ∧ (∀ resource ids w,
       Array_isArray (store w) ids = false →
       deleteMany apiUrl httpClient objects resource ids w
       = (w, Throw TypeError)).
Proof.
  assert (Helems : ∀ ids w, Array_isArray (store w) ids = false →
                            Array_elems ids w = (w, Throw TypeError)).
  { intros ids w H. unfold Array_elems, reading.
    destruct ids as [| | | | |l| |]; try done. cbn [Array_isArray] in H.
    destruct (store w !! l) as [[|]|]; done. }
  split_and!.
  - intros resource id d w Hd. unfold update, bind at 1, writing.
    by destruct d.
  - intros resource ids d w H. unfold updateMany, bind at 1.
    by rewrite Helems.
  - intros resource ids w H. unfold deleteMany, bind at 1.
    by rewrite Helems.
Qed.

(** X16. An answer that succeeds without the body a handler expects
    rejects the call with a [TypeError], the store untouched: for
    [getOne] and [create] a body that is no object, for [getList] a body
    that is no object or a record without [value]. *)
Theorem answers_without_body_reject :
  (∀ resource id w r,
     let req := {| url := apiUrl +:+ "/" +:+ resource +:+ "/" +:+
                          ToString objects (store w) id;
                   method := None; body := None |} in
     outcome (httpClient (sent w) req) = Fulfilled r →
     is_primitive (json r) = true →
     ∃ t,
       getOne apiUrl httpClient objects resource id w
       = ({| store := store w; sent := sent w ++ [req] |},
          Return {| settles_at := t; outcome := Rejected TypeError |}))
  ∧ (∀ resource d w r,
       let req := {| url := apiUrl +:+ "/" +:+ resource;
                     method := Some "POST";
                     body := JSON_stringify (store w) d |} in
       outcome (httpClient (sent w) req) = Fulfilled r →
       is_primitive (json r) = true →
       ∃ t,
         create apiUrl httpClient JSON_stringify resource d w
         = ({| store := store w; sent := sent w ++ [req] |},
            Return {| settles_at := t; outcome := Rejected TypeError |}))
  ∧ (∀ resource pagination sort filter w r,
       let req :=
         {| url := apiUrl +:+ "/" +:+ resource +:+ "?" +:+
                   stringify (store w)
                     (getList_query flattenObject (store w)
                        pagination sort filter);
            method := None; body := None |} in
       outcome (httpClient (sent w) req) = Fulfilled r →
       is_primitive (json r) = true
       ∨ (∃ lj eps, json r = VRef lj ∧ store w !! lj = Some (HObj eps)
                    ∧ prop_get "value" eps = None) →
       ∃ t,
         getList apiUrl httpClient stringify flattenObject
           resource pagination sort filter w
         = ({| store := store w; sent := sent w ++ [req] |},
            Return {| settles_at := t; outcome := Rejected TypeError |})).
Proof.
  split_and!.
  - intros resource id w r req Hr Hprim.
    exists (settles_at (httpClient (sent w) req)).
    unfold getOne. unfold bind at 1. unfold get_store. fold req.
    rewrite (fetch_then_fulfilled req _ w r Hr).
    by rewrite (echo_primitive _ _ Hprim).
  - intros resource d w r req Hr Hprim.
    exists (settles_at (httpClient (sent w) req)).
    unfold create. unfold bind at 1. unfold get_store. fold req.
    rewrite (fetch_then_fulfilled req _ w r Hr).
    by rewrite (echo_primitive _ _ Hprim).
  - intros resource pagination sort filter w r req Hr Hbody.
    exists (settles_at (httpClient (sent w) req)).
    unfold getList. unfold bind at 1. unfold get_store. fold req.
    rewrite (fetch_then_fulfilled req _ w r Hr).
    set (w1 := {| store := store w; sent := sent w ++ [req] |}).
    assert (envelope_result r w1 = (w1, Throw TypeError)) as ->; [|done].
    unfold envelope_result. unfold bind at 1. unfold reading at 1.
    assert (Hundef : ∀ T (k : value → M T),
              (data' <- idFunc VUndef ;; k data') w1 = (w1, Throw TypeError)).
    { intros T k. unfold bind. by rewrite (idFunc_primitive w1 VUndef). }
    destruct Hbody as [Hprim|(lj & eps & -> & Hlj & Hvalue)].
    + destruct (json r) as [| |b|n|s|l| |]; try done; cbn [Get];
        apply Hundef.
    + cbn [Get]. change (store w1) with (store w). rewrite Hlj, Hvalue.
      apply Hundef.
Qed.

Lemma keeps_store_fetch req (cb : response → M result) :
  (∀ r, keeps_sent (cb r)) →
  keeps_store_when_rejected httpClient
    (q <- fetch httpClient req ;; then_ q cb).
Proof.
  intros Hcb w w' p Hrun.
  destruct (fetch_then httpClient req cb w Hcb)
    as (w'' & p' & Hrun' & Hsent & _ & Hrej).
  rewrite Hrun in Hrun'. injection Hrun' as <- <-.
  exists req. split; [done|]. intros e He. by destruct (Hrej e He).
Qed.

Lemma keeps_store_bind {X} (pre : M X) (k : X → M (promise result)) :
  (∀ w, fst (pre w) = w) →
  (∀ x, keeps_store_when_rejected httpClient (k x)) →
  keeps_store_when_rejected httpClient (bind pre k).
Proof.
  intros Hpre Hk w w' p Hrun. unfold bind in Hrun.
  specialize (Hpre w). destruct (pre w) as [w1 [x|e]]; [|done].
  cbn [fst] in Hpre. subst w1. exact (Hk x w w' p Hrun).
Qed.

Lemma keeps_store_fan_out ids (mk : heap → value → request)
    (cb : list response → M result) :
  (∀ rs, keeps_sent (cb rs)) →
  keeps_store_when_any_rejected httpClient
    (ids' <- Array_elems ids ;;
     ps <- mapM (fun id => h <- get_store ;; fetch httpClient (mk h id)) ids' ;;
     then_ (Promise_all ps) cb).
Proof.
  intros Hcb w w' p Hrun. unfold bind at 1 in Hrun.
  destruct (Array_elems ids w) as [w0 [es|e]] eqn:Hes; [|done].
  assert (w0 = w) as ->.
  { unfold Array_elems, reading in Hes.
    destruct (match ids with VRef _ => _ | _ => _ end); by injection Hes. }
  unfold bind at 1 in Hrun. rewrite fan_out in Hrun.
  set (reqs := map (mk (store w)) es) in *.
  set (w1 := {| store := store w; sent := sent w ++ reqs |}) in *.
  exists reqs. split.
  - pose proof (then_sent (Promise_all (replies httpClient (sent w) reqs))
                  cb w1 Hcb) as H.
    by rewrite Hrun in H.
  - intros Hex.
    destruct (Promise_all_rejected _ Hex) as (q & e & Hq & He & Hall).
    rewrite (then_rejected _ cb e w1 Hall) in Hrun. by injection Hrun as <- _.
Qed.

(** X17. A call whose request the transport rejects has written
    nothing: [getList], [getOne], [create] and [delete] leave the store
    as they found it, and so do [updateMany] and [deleteMany] when any
    of their requests is rejected. *)
Theorem rejected_calls_leave_the_store :
  (∀ resource pagination sort filter,
     keeps_store_when_rejected httpClient
       (getList apiUrl httpClient stringify flattenObject
          resource pagination sort filter))
  ∧ (∀ resource id,
       keeps_store_when_rejected httpClient
         (getOne apiUrl httpClient objects resource id))
  ∧ (∀ resource d,
       keeps_store_when_rejected httpClient
         (create apiUrl httpClient JSON_stringify resource d))
  ∧ (∀ resource params,
       keeps_store_when_rejected httpClient
         (delete_ apiUrl httpClient objects resource params))
  ∧ (∀ resource ids d,
       keeps_store_when_any_rejected httpClient
         (updateMany apiUrl httpClient JSON_stringify objects
            resource ids d))
  ∧ (∀ resource ids,
       keeps_store_when_any_rejected httpClient
         (deleteMany apiUrl httpClient objects resource ids)).
Proof.
  assert (Hget : ∀ w, fst (get_store w) = w) by done.
  assert (Hread : ∀ A (f : heap → option A) w, fst (reading f w) = w).
  { intros A f w. unfold reading. by destruct (f (store w)). }
  split_and!.
  - intros resource pagination sort filter. unfold getList.
    apply keeps_store_bind; [done|]. intros h.
    apply keeps_store_fetch, keeps_sent_envelope_result.
  - intros resource id. unfold getOne.
    apply keeps_store_bind; [done|]. intros h.
    apply keeps_store_fetch. intros r. apply keeps_sent_echo.
  - intros resource d. unfold create.
    apply keeps_store_bind; [done|]. intros h.
    apply keeps_store_fetch. intros r. apply keeps_sent_echo.
  - intros resource params. unfold delete_.
    apply keeps_store_bind; [apply Hread|]. intros id.
    apply keeps_store_bind; [done|]. intros h.
    apply keeps_store_fetch. intros r. apply keeps_sent_echo.
  - intros resource ids d. unfold updateMany.
    apply (keeps_store_fan_out ids (fun h id =>
      {| url := apiUrl +:+ "/" +:+ resource +:+ "/" +:+
                ToString objects h id;
         method := Some "PUT"; body := JSON_stringify h d |})).
    intros rs. apply keeps_sent_bind.
    + apply keeps_sent_mapM. intros r. apply keeps_sent_reading.
    + intros Ids. apply keeps_sent_bind; [apply keeps_sent_alloc|].
      intros; apply keeps_sent_ret.
  - intros resource ids. unfold deleteMany.
    apply (keeps_store_fan_out ids (fun h id =>
      {| url := apiUrl +:+ "/" +:+ resource +:+ "/" +:+
                ToString objects h id;
         method := Some "DELETE"; body := None |})).
    intros rs. apply keeps_sent_echo.
Qed.

(** X18. [getMany] answered with an envelope of records resolves with
    a new array of those records, each normalised, and without [total];
    the caller's array of ids is left sorted. *)
Theorem getMany_resolves_with_records :
  ∀ resource lids es ps w r lj eps la ls aps,
    store w !! lids = Some (HArr es ps) →
    Forall (fun v => is_identifier v = true) es →
    let es' := sorted objects (store w) es in
    let req := {| url := apiUrl +:+ "/" +:+ resource +:+ "?" +:+
                         "$filter=" +:+ "Id" +:+ " in (" +:+
                         String.concat ", "
                           (map render_key
                              (string_sort (map identifier_string es))) +:+
                         ")";
                  method := None; body := None |} in
    outcome (httpClient (sent w) req) = Fulfilled r →
    json r = VRef lj →
    store w !! lj = Some (HObj eps) →
    prop_get "value" eps = Some (VRef la) →
    store w !! la = Some (HArr (map VRef ls) aps) →
    (∀ l, l ∈ ls → ∃ ps, store w !! l = Some (HObj ps)) →
    ∃ t h' lnew,
      getMany apiUrl httpClient objects resource (VRef lids) w
      = ({| store := h'; sent := sent w ++ [req] |},
         Return {| settles_at := t;
                   outcome := Fulfilled {| data := VRef lnew;
                                           total := None |} |})
      ∧ store w !! lnew = None
      ∧ h' !! lnew = Some (HArr (map VRef ls) [])
      ∧ h' !! lids = Some (HArr es' ps)
      ∧ ∀ l ps', l ∈ ls → store w !! l = Some (HObj ps') →
                 h' !! l = Some (HObj (normalized ps')).
Proof.
  intros resource lids es ps w r lj eps la ls aps Hl Hes es' req
    Hr Hjson Hlj Hvalue Hla Hrec.
  set (h1 := <[lids := HArr es' ps]> (store w)).
  assert (Hlj1 : h1 !! lj = Some (HObj eps)).
  { unfold h1. rewrite lookup_insert_ne; [done|]. intros <-. congruence. }
  assert (Hids_not_rec : lids ∉ ls).
  { intros Hin. destruct (Hrec lids Hin) as [qs Hqs]. congruence. }
  assert (Hrec1 : ∀ l, l ∈ ls → ∃ qs, h1 !! l = Some (HObj qs)).
  { intros l Hin. destruct (Hrec l Hin) as [qs Hqs]. exists qs.
    unfold h1. rewrite lookup_insert_ne; [done|]. intros <-. done. }
  set (w1 := {| store := h1; sent := sent w ++ [req] |}).
  destruct (decide (la = lids)) as [->|Hla_ne].
  - (* the answer holds the array of ids itself: it holds no records *)
    rewrite Hl in Hla. injection Hla as Hes_eq Hps_eq.
    destruct ls as [|l0 ls].
    + cbn [map] in Hes_eq. subst es.
      assert (Hla1 : store w1 !! lids = Some (HArr (map VRef []) ps)).
      { cbn [store w1]. unfold h1. by rewrite lookup_insert_eq. }
      destruct (idFunc_records w1 lids [] ps Hla1)
        as (h' & lnew & Hrun & Hnew & Harr & Hframe & Hnorm).
      { intros l Hin. by apply elem_of_nil in Hin. }
      exists (settles_at (httpClient (sent w) req)), h', lnew.
      split_and!.
      * unfold getMany. unfold bind at 1.
        pose proof (getOdataFilter_array objects (store w) "Id"
                      lids [] ps Hl) as Hfst.
        pose proof (getOdataFilter_identifiers objects (store w) "Id"
                      lids [] ps Hl Hes) as Hsnd.
        destruct (getOdataFilter objects (store w) [("Id", VRef lids)])
          as [h s]. cbn [snd] in Hsnd. injection Hfst as -> _. subst s.
        fold h1.
        rewrite (fetch_then_fulfilled req _ {| store := h1; sent := sent w |} r Hr).
        cbn [store sent]. fold w1.
        unfold bind at 1. unfold reading at 1. rewrite Hjson. cbn [Get].
        change (store w1) with h1. rewrite Hlj1, Hvalue.
        change (default VUndef (Some (VRef lids))) with (VRef lids).
        unfold bind at 1. rewrite Hrun. done.
      * cbn [store w1] in Hnew. unfold h1 in Hnew.
        apply lookup_insert_None in Hnew as [? _]. done.
      * done.
      * rewrite Hframe; [by apply lookup_insert_eq| |].
        -- intros Hin. by apply elem_of_nil in Hin.
        -- intros <-. cbn [store w1] in Hnew. unfold h1 in Hnew.
           by rewrite lookup_insert_eq in Hnew.
      * intros l ps' Hin. by apply elem_of_nil in Hin.
    + cbn [map] in Hes_eq. subst es. apply Forall_cons in Hes as [? _]. done.
  - assert (Hla1 : store w1 !! la = Some (HArr (map VRef ls) aps)).
    { cbn [store w1]. unfold h1. by rewrite lookup_insert_ne. }
    destruct (idFunc_records w1 la ls aps Hla1 Hrec1)
      as (h' & lnew & Hrun & Hnew & Harr & Hframe & Hnorm).
    exists (settles_at (httpClient (sent w) req)), h', lnew.
    split_and!.
    + unfold getMany. unfold bind at 1.
      pose proof (getOdataFilter_array objects (store w) "Id"
                    lids es ps Hl) as Hfst.
      pose proof (getOdataFilter_identifiers objects (store w) "Id"
                    lids es ps Hl Hes) as Hsnd.
      destruct (getOdataFilter objects (store w) [("Id", VRef lids)])
        as [h s]. cbn [snd] in Hsnd. injection Hfst as -> _. subst s.
      fold es' h1.
      rewrite (fetch_then_fulfilled req _ {| store := h1; sent := sent w |} r Hr).
      cbn [store sent]. fold w1.
      unfold bind at 1. unfold reading at 1. rewrite Hjson. cbn [Get].
      change (store w1) with h1. rewrite Hlj1, Hvalue.
      change (default VUndef (Some (VRef la))) with (VRef la).
      unfold bind at 1. rewrite Hrun. done.
    + cbn [store w1] in Hnew. unfold h1 in Hnew.
      apply lookup_insert_None in Hnew as [? _]. done.
    + done.
    + rewrite Hframe; [by apply lookup_insert_eq|done|].
      intros <-. cbn [store w1] in Hnew. unfold h1 in Hnew.
      by rewrite lookup_insert_eq in Hnew.
    + intros l ps' Hin Hps'. apply Hnorm; [done|].
      cbn [store w1]. unfold h1. rewrite lookup_insert_ne; [done|].
      intros <-. done.
Qed.

End MoreHandlerProperties.

(** ** Worked instances of the further properties *)

Lemma idFunc_without_Id_clears_id_witness :
  ∃ ps',
    idFunc (VRef 5%nat) edge_world
    = ({| store := <[5%nat := HObj ps']> edge_store; sent := [] |},
       Return (VRef 5%nat))
    ∧ prop_get "id" ps' = Some VUndef
    ∧ Get (<[5%nat := HObj ps']> edge_store) (VRef 5%nat) "id" = Some VUndef
    ∧ ∀ k, k ≠ "id" → prop_get k ps' = prop_get k [("id", VNum 7)].
Proof.
  apply (idFunc_without_Id_clears_id edge_world 5%nat [("id", VNum 7)]);
    reflexivity.
Defined.

Lemma idFunc_twice_witness :
  (json <- idFunc (VRef 1%nat) ;; idFunc json) edge_world
  = idFunc (VRef 1%nat) edge_world.
Proof.
  apply (idFunc_twice edge_world 1%nat [("Id", VNum 8)]). reflexivity.
Defined.

Lemma idFunc_throws_on_primitive_witness :
  idFunc (VNum 4) edge_world = (edge_world, Throw TypeError)
  ∧ ∃ h',
      idFunc (VRef 6%nat) edge_world
      = ({| store := h'; sent := [] |}, Throw TypeError)
      ∧ dom h' = dom edge_store
      ∧ (∀ l, l ∉ [1%nat] → h' !! l = edge_store !! l)
      ∧ (∀ l ps, l ∈ [1%nat] → edge_store !! l = Some (HObj ps) →
           h' !! l = Some (HObj (normalized ps))).
Proof.
  split.
  - apply (proj1 idFunc_throws_on_primitive). reflexivity.
  - apply (proj2 idFunc_throws_on_primitive edge_world 6%nat [1%nat]
             (VNum 4) [] []); [reflexivity| |reflexivity].
    intros l Hl. apply list_elem_of_In in Hl. simpl in Hl.
    destruct Hl as [<-|[]]. eexists; reflexivity.
Defined.

Lemma idFunc_copies_the_array_witness :
  ∃ h' lnew,
    idFunc (VRef 2%nat) edge_world
    = ({| store := h'; sent := [] |}, Return (VRef lnew))
    ∧ lnew ≠ 2%nat
    ∧ h' !! 2%nat = Some (HArr [VRef 0%nat; VRef 1%nat] [])
    ∧ ∀ l, l ∉ [0%nat; 1%nat] → l ≠ lnew → h' !! l = edge_store !! l.
Proof.
  apply (idFunc_copies_the_array edge_world 2%nat [0%nat; 1%nat] []);
    [reflexivity|].
  intros l Hl. apply list_elem_of_In in Hl. simpl in Hl.
  destruct Hl as [<-|[<-|[]]]; eexists; reflexivity.
Defined.

Lemma getOdataFilter_sorts_in_place_witness :
  (∃ es',
     fst (getOdataFilter plain_object edge_store [("Id", VRef 9%nat)])
     = <[9%nat := HArr es' []]> edge_store
     ∧ es' ≡ₚ [VNum 9; VStr "a"; VNum 10]
     ∧ Sorted (fun a b => sort_le plain_object edge_store a b = true) es'
     ∧ ∀ l', l' ≠ 9%nat →
         fst (getOdataFilter plain_object edge_store [("Id", VRef 9%nat)]) !! l'
         = edge_store !! l')
  ∧ fst (getOdataFilter plain_object edge_store [("Id", VNum 3)]) = edge_store.
Proof.
  split.
  - apply (proj1 (getOdataFilter_sorts_in_place plain_object) edge_store "Id"
             9%nat [VNum 9; VStr "a"; VNum 10] []). reflexivity.
  - apply (proj2 (getOdataFilter_sorts_in_place plain_object) edge_store "Id"
             (VNum 3)). reflexivity.
Defined.

Lemma getOdataFilter_again_witness :
  getOdataFilter plain_object
    (fst (getOdataFilter plain_object edge_store [("Id", VRef 9%nat)]))
    [("Id", VRef 9%nat)]
  = getOdataFilter plain_object edge_store [("Id", VRef 9%nat)].
Proof.
  apply (getOdataFilter_again plain_object edge_store "Id" 9%nat
           [VNum 9; VStr "a"; VNum 10] []); [reflexivity|].
  repeat constructor.
Defined.

Lemma delete_resolves_with_params_witness :
  ∃ t,
    delete_ "http://api" (answering (fun _ => VUndef)) plain_object
      "posts" (VRef 5%nat) edge_world
    = ({| store := <[5%nat := HObj (normalized [("id", VNum 7)])]> edge_store;
          sent := [{| url := "http://api/posts/7";
                      method := Some "DELETE"; body := None |}] |},
       Return {| settles_at := t;
                 outcome := Fulfilled {| data := VRef 5%nat;
                                         total := None |} |})
    ∧ prop_get "id" (normalized [("id", VNum 7)]) = Some VUndef
    ∧ (prop_get "Id" [("id", VNum 7)] = None →
       Get (<[5%nat := HObj (normalized [("id", VNum 7)])]> edge_store)
         (VRef 5%nat) "id"
       = Some VUndef).
Proof.
  apply (delete_resolves_with_params "http://api"
           (answering (fun _ => VUndef)) plain_object
           "posts" 5%nat [("id", VNum 7)] (VNum 7) edge_world
           {| json := VUndef |}); reflexivity.
Defined.

Lemma getOne_normalizes_record_witness :
  ∃ t,
    getOne "http://api" (answering (fun _ => VRef 1%nat)) plain_object
      "posts" (VNum 8) edge_world
    = ({| store := <[1%nat := HObj (normalized [("Id", VNum 8)])]> edge_store;
          sent := [{| url := "http://api/posts/8";
                      method := None; body := None |}] |},
       Return {| settles_at := t;
                 outcome := Fulfilled {| data := VRef 1%nat;
                                         total := None |} |}).
Proof.
  apply (getOne_normalizes_record "http://api"
           (answering (fun _ => VRef 1%nat)) plain_object
           "posts" (VNum 8) edge_world {| json := VRef 1%nat |} 1%nat
           [("Id", VNum 8)]); reflexivity.
Defined.

Lemma create_posts_data_as_is_witness :
  ∃ t w',
    create "http://api" (answering (fun _ => VRef 1%nat)) property_names
      "posts" (VRef 5%nat) edge_world
    = (w', Return {| settles_at := t;
                     outcome := Fulfilled {| data := VRef 1%nat;
                                             total := None |} |})
    ∧ sent w' = [{| url := "http://api/posts";
                    method := Some "POST"; body := Some "id" |}]
    ∧ store w' !! 1%nat = Some (HObj (normalized [("Id", VNum 8)]))
    ∧ ∀ l, l ≠ 1%nat → store w' !! l = edge_store !! l.
Proof.
  apply (create_posts_data_as_is "http://api"
           (answering (fun _ => VRef 1%nat)) property_names
           "posts" (VRef 5%nat) edge_world {| json := VRef 1%nat |} 1%nat
           [("Id", VNum 8)]); reflexivity.
Defined.

Lemma getMany_sorts_ids_in_place_witness :
  ∃ w' p,
    getMany "http://api" (rejecting (Reason (VStr "Bad Gateway"))) plain_object
      "posts" (VRef 9%nat) edge_world
    = (w', Return p)
    ∧ sent w' = [{| url := "http://api/posts?$filter=Id in (10, 9, 'a')";
                    method := None; body := None |}]
    ∧ sorted plain_object edge_store [VNum 9; VStr "a"; VNum 10]
      ≡ₚ [VNum 9; VStr "a"; VNum 10]
    ∧ map identifier_string
          (sorted plain_object edge_store [VNum 9; VStr "a"; VNum 10])
      = string_sort (map identifier_string [VNum 9; VStr "a"; VNum 10])
    ∧ ∀ e, outcome (rejecting (Reason (VStr "Bad Gateway")) []
                      {| url := "http://api/posts?$filter=Id in (10, 9, 'a')";
                         method := None; body := None |}) = Rejected e →
           outcome p = Rejected e
           ∧ store w'
             = <[9%nat := HArr (sorted plain_object edge_store
                                  [VNum 9; VStr "a"; VNum 10]) []]> edge_store.
Proof.
  apply (getMany_sorts_ids_in_place "http://api"
           (rejecting (Reason (VStr "Bad Gateway"))) plain_object
           "posts" 9%nat [VNum 9; VStr "a"; VNum 10] [] edge_world);
    [reflexivity|repeat constructor].
Defined.

Lemma getMany_without_ids_still_asks_witness :
  ∃ w' p,
    getMany "http://api" (answering (fun _ => VUndef)) plain_object
      "posts" (VRef 7%nat) edge_world
    = (w', Return p)
    ∧ sent w' = [{| url := "http://api/posts?$filter=Id in ()";
                    method := None; body := None |}].
Proof.
  apply (getMany_without_ids_still_asks "http://api"
           (answering (fun _ => VUndef)) plain_object
           "posts" 7%nat [] edge_world). reflexivity.
Defined.

Lemma getManyReference_filters_on_target_witness :
  (∃ w' p,
     getManyReference "http://api" (answering (fun _ => VRef 3%nat))
       plain_object "comments" "post_id" (VStr "p7") edge_world
     = (w', Return p)
     ∧ sent w' = [{| url := "http://api/comments?$filter=post_id in ('p7')";
                     method := None; body := None |}]
     ∧ ∀ e, outcome (answering (fun _ => VRef 3%nat) []
                       {| url := "http://api/comments?$filter=post_id in ('p7')";
                          method := None; body := None |}) = Rejected e →
            outcome p = Rejected e ∧ store w' = edge_store)
  ∧ (∃ t h' lnew,
       getManyReference "http://api" (answering (fun _ => VRef 3%nat))
         plain_object "comments" "post_id" (VStr "p7") edge_world
       = ({| store := h';
             sent := [{| url := "http://api/comments?$filter=post_id in ('p7')";
                         method := None; body := None |}] |},
          Return {| settles_at := t;
                    outcome := Fulfilled {| data := VRef lnew;
                                            total := Some (VNum 2) |} |})
       ∧ h' !! lnew = Some (HArr [VRef 0%nat; VRef 1%nat] [])
       ∧ ∀ l ps, l ∈ [0%nat; 1%nat] → edge_store !! l = Some (HObj ps) →
                 h' !! l = Some (HObj (normalized ps)))
  ∧ (∃ w' p,
       getManyReference "http://api" (answering (fun _ => VRef 3%nat))
         plain_object "comments" "__proto__" (VStr "p7") edge_world
       = (w', Return p)
       ∧ sent w' = [{| url := "http://api/comments?$filter=";
                       method := None; body := None |}]
       ∧ ∀ e, outcome (answering (fun _ => VRef 3%nat) []
                         {| url := "http://api/comments?$filter=";
                            method := None; body := None |}) = Rejected e →
              outcome p = Rejected e ∧ store w' = edge_store).
Proof.
  split_and!.
  - apply (proj1 (getManyReference_filters_on_target "http://api"
             (answering (fun _ => VRef 3%nat)) plain_object
             "comments" "post_id" (VStr "p7") edge_world eq_refl)).
  - apply (proj2 (getManyReference_filters_on_target "http://api"
             (answering (fun _ => VRef 3%nat)) plain_object
             "comments" "post_id" (VStr "p7") edge_world eq_refl)
             {| json := VRef 3%nat |} 3%nat [("value", VRef 2%nat)] 2%nat
             [0%nat; 1%nat] []); try reflexivity.
    intros l Hl. apply list_elem_of_In in Hl. simpl in Hl.
    destruct Hl as [<-|[<-|[]]]; eexists; reflexivity.
  - apply (proj1 (getManyReference_filters_on_target "http://api"
             (answering (fun _ => VRef 3%nat)) plain_object
             "comments" "__proto__" (VStr "p7") edge_world eq_refl)).
Defined.

Lemma fan_out_without_ids_witness :
  ∃ lnew,
    edge_store !! lnew = None
    ∧ updateMany "http://api" (answering (fun _ => VUndef)) property_names
        plain_object "posts" (VRef 7%nat) (VRef 5%nat) edge_world
      = ({| store := <[lnew := HArr [] []]> edge_store; sent := [] |},
         Return {| settles_at := 0;
                   outcome := Fulfilled {| data := VRef lnew;
                                           total := None |} |})
    ∧ deleteMany "http://api" (answering (fun _ => VUndef)) plain_object
        "posts" (VRef 7%nat) edge_world
      = ({| store := <[lnew := HArr [] []]> edge_store; sent := [] |},
         Return {| settles_at := 0;
                   outcome := Fulfilled {| data := VRef lnew;
                                           total := None |} |}).
Proof.
  apply (fan_out_without_ids "http://api" (answering (fun _ => VUndef))
           property_names plain_object "posts" 7%nat (VRef 5%nat) []
           edge_world). reflexivity.
Defined.

Lemma updateMany_rejects_without_body_witness :
  ∃ t,
    updateMany "http://api" (answering (fun _ => VUndef)) property_names
      plain_object "posts" (VRef 4%nat) (VRef 5%nat) edge_world
    = ({| store := edge_store;
          sent := [{| url := "http://api/posts/4";
                      method := Some "PUT"; body := Some "id" |};
                   {| url := "http://api/posts/5";
                      method := Some "PUT"; body := Some "id" |}] |},
       Return {| settles_at := t; outcome := Rejected TypeError |}).
Proof.
  apply (updateMany_rejects_without_body "http://api"
           (answering (fun _ => VUndef)) property_names plain_object
           "posts" 4%nat (VRef 5%nat) edge_world [VNum 4; VNum 5] []);
    [reflexivity| |].
  - repeat constructor; eexists; reflexivity.
  - left. eexists. split; reflexivity.
Defined.

Lemma handlers_throw_before_sending_witness :
  update "http://api" (answering (fun _ => VUndef)) property_names
    plain_object "posts" (VNum 7) VUndef edge_world
  = (edge_world, Throw TypeError)
  ∧ updateMany "http://api" (answering (fun _ => VUndef)) property_names
      plain_object "posts" (VNum 4) (VRef 5%nat) edge_world
    = (edge_world, Throw TypeError)
  ∧ deleteMany "http://api" (answering (fun _ => VUndef)) plain_object
      "posts" VUndef edge_world
    = (edge_world, Throw TypeError).
Proof.
  pose proof (handlers_throw_before_sending "http://api"
                (answering (fun _ => VUndef)) property_names plain_object)
    as (Hupdate & HupdateMany & HdeleteMany).
  split_and!.
  - apply Hupdate. reflexivity.
  - apply HupdateMany. reflexivity.
  - apply HdeleteMany. reflexivity.
Defined.

Lemma answers_without_body_reject_witness :
  (∃ t,
     getOne "http://api" (answering (fun _ => VUndef)) plain_object
       "posts" (VNum 8) edge_world
     = ({| store := edge_store;
           sent := [{| url := "http://api/posts/8";
                       method := None; body := None |}] |},
        Return {| settles_at := t; outcome := Rejected TypeError |}))
  ∧ (∃ t,
       create "http://api" (answering (fun _ => VUndef)) property_names
         "posts" (VRef 5%nat) edge_world
       = ({| store := edge_store;
             sent := [{| url := "http://api/posts";
                         method := Some "POST"; body := Some "id" |}] |},
          Return {| settles_at := t; outcome := Rejected TypeError |}))
  ∧ (∃ t,
       getList "http://api" (answering (fun _ => VRef 8%nat)) no_query
         no_filter "posts" {| page := 1; perPage := 10 |}
         {| field := "id"; order := "ASC" |} VUndef edge_world
       = ({| store := edge_store;
             sent := [{| url := "http://api/posts?";
                         method := None; body := None |}] |},
          Return {| settles_at := t; outcome := Rejected TypeError |})).
Proof.
  split_and!.
  - apply (proj1 (answers_without_body_reject "http://api"
             (answering (fun _ => VUndef)) property_names no_query no_filter
             plain_object) "posts" (VNum 8) edge_world {| json := VUndef |});
      reflexivity.
  - apply (proj1 (proj2 (answers_without_body_reject "http://api"
             (answering (fun _ => VUndef)) property_names no_query no_filter
             plain_object)) "posts" (VRef 5%nat) edge_world
             {| json := VUndef |}); reflexivity.
  - apply (proj2 (proj2 (answers_without_body_reject "http://api"
             (answering (fun _ => VRef 8%nat)) property_names no_query
             no_filter plain_object)) "posts" {| page := 1; perPage := 10 |}
             {| field := "id"; order := "ASC" |} VUndef edge_world
             {| json := VRef 8%nat |}); [reflexivity|].
    right. exists 8%nat, [("count", VNum 1)]. split_and!; reflexivity.
Defined.

Lemma rejected_calls_leave_the_store_witness :
  (∃ req,
     [{| url := "http://api/posts/7"; method := None; body := None |}]
     = sent edge_world ++ [req]
     ∧ ∀ e, outcome (rejecting (Reason (VStr "Not Found"))
                       (sent edge_world) req) = Rejected e →
            edge_store = store edge_world)
  ∧ (∃ reqs,
       [{| url := "http://api/posts/4";
           method := Some "DELETE"; body := None |};
        {| url := "http://api/posts/5";
           method := Some "DELETE"; body := None |}]
       = sent edge_world ++ reqs
       ∧ (Exists (fun q => ∃ e, outcome q = Rejected e)
            (replies (rejecting_url "http://api/posts/5"
                        (Reason (VStr "Conflict")))
                     (sent edge_world) reqs) →
          edge_store = store edge_world)).
Proof.
  split.
  - exact (proj1 (proj2 (rejected_calls_leave_the_store "http://api"
             (rejecting (Reason (VStr "Not Found")))
             property_names no_query no_filter plain_object))
             "posts" (VNum 7) edge_world
             {| store := edge_store;
                sent := [{| url := "http://api/posts/7";
                            method := None; body := None |}] |}
             {| settles_at := 0;
                outcome := Rejected (Reason (VStr "Not Found")) |}
             eq_refl).
  - exact (proj2 (proj2 (proj2 (proj2 (proj2
             (rejected_calls_leave_the_store "http://api"
                (rejecting_url "http://api/posts/5" (Reason (VStr "Conflict")))
                property_names no_query no_filter plain_object)))))
             "posts" (VRef 4%nat) edge_world
             {| store := edge_store;
                sent := [{| url := "http://api/posts/4";
                            method := Some "DELETE"; body := None |};
                         {| url := "http://api/posts/5";
                            method := Some "DELETE"; body := None |}] |}
             {| settles_at := 1;
                outcome := Rejected (Reason (VStr "Conflict")) |}
             eq_refl).
Defined.

Lemma getMany_resolves_with_records_witness :
  ∃ t h' lnew,
    getMany "http://api" (answering (fun _ => VRef 3%nat)) plain_object
      "posts" (VRef 9%nat) edge_world
    = ({| store := h';
          sent := [{| url := "http://api/posts?$filter=Id in (10, 9, 'a')";
                      method := None; body := None |}] |},
       Return {| settles_at := t;
                 outcome := Fulfilled {| data := VRef lnew;
                                         total := None |} |})
    ∧ edge_store !! lnew = None
    ∧ h' !! lnew = Some (HArr [VRef 0%nat; VRef 1%nat] [])
    ∧ h' !! 9%nat = Some (HArr [VNum 10; VNum 9; VStr "a"] [])
    ∧ ∀ l ps', l ∈ [0%nat; 1%nat] → edge_store !! l = Some (HObj ps') →
               h' !! l = Some (HObj (normalized ps')).
Proof.
  apply (getMany_resolves_with_records "http://api"
           (answering (fun _ => VRef 3%nat)) plain_object
           "posts" 9%nat [VNum 9; VStr "a"; VNum 10] [] edge_world
           {| json := VRef 3%nat |} 3%nat [("value", VRef 2%nat)] 2%nat
           [0%nat; 1%nat] []); try reflexivity.
  - repeat constructor.
  - intros l Hl. apply list_elem_of_In in Hl. simpl in Hl.
    destruct Hl as [<-|[<-|[]]]; eexists; reflexivity.
Defined.
